(** * The scene conversion scripts of the renderer, embedded in Rocq

    The repository holds small Python scripts that turn geometry and a
    Blender project into the scene document of a ray tracer:

    - [convertmonkey.py], [make_bunny_scene.py], [make_dragon_scene.py] and
      [make_bunnyetc_scene.py] read an OBJ text line by line into a vertex
      list and an index list (the same loop in each of them);
    - [scenes/scene_from_blend.py] derives the camera from a position and a
      quaternion, picks the background and the diffuse colours, dumps the
      scene as indented JSON and collapses short vectors with two regular
      expression substitutions.

    Python values are modelled as follows.  A [list] is a Rocq [list]; an
    indexing that Python refuses is a [Raise] in the [result] monad, with the
    exception Python raises.  Numbers are kept behind the class [Num], with
    three instances: binary64 floats ([PrimFloat], what the scripts compute
    with), unbounded integers ([Z], Python's [int]) and real numbers ([R], the
    exact reading of the arithmetic).  Text is a [string] in the reader and a
    list of characters in the serializer. *)

From Stdlib Require Import List ZArith Bool Ascii String Lia.
From Stdlib Require Import PrimFloat Uint63 SpecFloat FloatOps FloatAxioms.
From Stdlib Require Import Reals Lra Ring.
From Stdlib Require DecimalString.
Import ListNotations.

Set Implicit Arguments.

(** ** Python results *)

Inductive exn : Type :=
| IndexError
| ValueError
| KeyError.

Inductive result (A : Type) : Type :=
| Ok (a : A)
| Raise (e : exn).

Arguments Ok {A} a.
Arguments Raise {A} e.

Definition bind {A B : Type} (r : result A) (k : A -> result B) : result B :=
  match r with
  | Ok a => k a
  | Raise e => Raise e
  end.

Notation "x <- e ;; k" := (bind e (fun x => k))
  (at level 61, e at next level, right associativity).

Definition raises {A : Type} (r : result A) : Prop :=
  exists e, r = Raise e.

(** [l[i]] for a non-negative index. *)
Definition getitem {A : Type} (l : list A) (i : nat) : result A :=
  match nth_error l i with
  | Some a => Ok a
  | None => Raise IndexError
  end.

(** [l[i:j]] for non-negative bounds: a slice never raises. *)
Definition slice {A : Type} (i j : nat) (l : list A) : list A :=
  firstn (j - i) (skipn i l).

(** [l[-n:]]: the last [n] elements, the whole list when it is shorter. *)
Definition slice_last {A : Type} (n : nat) (l : list A) : list A :=
  skipn (List.length l - n) l.

(** ** Numbers *)

Class Num (A : Type) : Type := {
  n0 : A;
  n1 : A;
  nadd : A -> A -> A;
  nsub : A -> A -> A;
  nmul : A -> A -> A;
  nneg : A -> A
}.

Declare Scope num_scope.
Delimit Scope num_scope with num.
Notation "x + y" := (nadd x y) : num_scope.
Notation "x - y" := (nsub x y) : num_scope.
Notation "x * y" := (nmul x y) : num_scope.
Notation "- x" := (nneg x) : num_scope.

#[export] Instance float_Num : Num float := {
  n0 := 0%float;
  n1 := 1%float;
  nadd := PrimFloat.add;
  nsub := PrimFloat.sub;
  nmul := PrimFloat.mul;
  nneg := PrimFloat.opp
}.

#[export] Instance Z_Num : Num Z := {
  n0 := 0%Z;
  n1 := 1%Z;
  nadd := Z.add;
  nsub := Z.sub;
  nmul := Z.mul;
  nneg := Z.opp
}.

#[export] Instance R_Num : Num R := {
  n0 := 0%R;
  n1 := 1%R;
  nadd := Rplus;
  nsub := Rminus;
  nmul := Rmult;
  nneg := Ropp
}.

(** The laws of exact arithmetic.  [Z] and [R] have them; floats do not
    (rounding breaks associativity), so what is proved from them is a
    statement about the formulas, read over exact numbers. *)
Class NumRing (A : Type) `{Num A} : Prop :=
  num_ring : ring_theory n0 n1 nadd nmul nsub nneg (@eq A).

Arguments NumRing A {_}.

#[export] Instance Z_NumRing : NumRing Z := Zth.

#[export] Instance R_NumRing : NumRing R := RTheory.

(** ** scenes/scene_from_blend.py: vectors and quaternions *)

Section Vectors.
Context {A : Type} `{Num A}.
Local Open Scope num_scope.

Definition xzy_to_xyz (values : list A) : result (list A) :=
  match values with
  | v0 :: v1 :: v2 :: _ => Ok [v0; v2; v1]
  | _ => Raise IndexError
  end.

(** [[x + y for (x, y) in zip(a, b)]]: [zip] stops at the shorter list. *)
Fixpoint add_vec (a b : list A) : list A :=
  match a, b with
  | x :: a', y :: b' => (x + y) :: add_vec a' b'
  | _, _ => []
  end.

Definition multiply_quats (a b : list A) : result (list A) :=
  match a, b with
  | a0 :: a1 :: a2 :: a3 :: _, b0 :: b1 :: b2 :: b3 :: _ =>
      let w := a0 * b0 - a1 * b1 - a2 * b2 - a3 * b3 in
      let x := a0 * b1 + a1 * b0 - a2 * b3 + a3 * b2 in
      let y := a0 * b2 + a1 * b3 + a2 * b0 - a3 * b1 in
      let z := a0 * b3 - a1 * b2 + a2 * b1 + a3 * b0 in
      Ok [w; x; y; z]
  | _, _ => Raise IndexError
  end.

(** [inv_quat = [quat[0]] + [-x for x in quat[1:4]]]: the conjugate. *)
Definition inv_quat (quat : list A) : result (list A) :=
  q0 <- getitem quat 0 ;;
  Ok (q0 :: map nneg (slice 1 4 quat)).

Definition rotate_quat (vec quat : list A) : result (list A) :=
  inv <- inv_quat quat ;;
  inner <- multiply_quats (n0 :: vec) quat ;;
  rotated <- multiply_quats inv inner ;;
  Ok (slice_last 3 rotated).

End Vectors.

(** ** scenes/scene_from_blend.py: what is read from Blender

    The script reads the host's objects through attribute chains.  Only the
    values it reads are kept: a node collection is an association list from
    node names to nodes, in the host's order; a node has the default values
    of its inputs.  The host's objects are taken as present (no attribute of
    a chain is missing). *)

Record node : Type := {
  inputs : list (list float)    (* [inputs[i].default_value] *)
}.

Definition nodes : Type := list (string * node).

(** [name in nodes]. *)
Definition contains (name : string) (ns : nodes) : bool :=
  existsb (fun kv => String.eqb (fst kv) name) ns.

(** [nodes[name]]. *)
Definition lookup (name : string) (ns : nodes) : result node :=
  match find (fun kv => String.eqb (fst kv) name) ns with
  | Some kv => Ok (snd kv)
  | None => Raise KeyError
  end.

Record blend_scene : Type := {
  camera_location : list float;             (* [scene.camera.location] *)
  camera_rotation_quaternion : list float;  (* [scene.camera.rotation_quaternion] *)
  camera_angle : float;                     (* [scene.camera.data.angle] *)
  resolution_x : Z;                         (* [scene.render.resolution_x] *)
  resolution_y : Z;                         (* [scene.render.resolution_y] *)
  world_nodes : nodes                       (* [scene.world.node_tree.nodes] *)
}.

(** [scene_dict["camera"]]. *)
Record camera : Type := {
  film_dimensions : list Z;
  origin : list float;
  look_at : list float;
  up : list float;
  field_of_view : float
}.

(** [math.pi], and [math.degrees], which multiplies by the constant
    [180.0 / pi]. *)
Definition pi : float := 0x1.921fb54442d18p+1%float.

Definition degrees (x : float) : float := (x * (180 / pi))%float.

(** Lines 48 to 60: the camera. *)
Definition camera_dict (scene : blend_scene) : result camera :=
  let camera_quat := slice 0 4 (camera_rotation_quaternion scene) in
  origin <- xzy_to_xyz (slice 0 3 (camera_location scene)) ;;
  forward <- rotate_quat [n0; n0; nneg n1] camera_quat ;;
  forward' <- xzy_to_xyz forward ;;
  let look_at := add_vec origin forward' in
  upward <- rotate_quat [n0; n1; n0] camera_quat ;;
  up <- xzy_to_xyz upward ;;
  Ok {| film_dimensions := [resolution_x scene; resolution_y scene];
        origin := origin;
        look_at := look_at;
        up := up;
        field_of_view := degrees (camera_angle scene) |}.

(** Lines 62 to 65: the background colour.  The literal [0.8] is the
    binary64 number nearest to it. *)
Definition environment (world : nodes) : result (list float) :=
  if contains "Background" world then
    background_node <- lookup "Background" world ;;
    input0 <- getitem (inputs background_node) 0 ;;
    Ok (slice 0 3 input0)
  else Ok (repeat 0x1.999999999999ap-1%float 3).

(** Lines 91 to 95: the colour of a mesh, from the node collections of its
    materials ([mesh.data.materials.values()]). *)
Definition color (materials : list nodes) : result (list float) :=
  match materials with
  | material0 :: _ =>
      if contains "Diffuse BSDF" material0 then
        diffuse_node <- lookup "Diffuse BSDF" material0 ;;
        input0 <- getitem (inputs diffuse_node) 0 ;;
        Ok (slice 0 3 input0)
      else Ok (repeat 0.5%float 3)
  | [] => Ok (repeat 0.5%float 3)
  end.

(** ** The OBJ readers: convertmonkey.py and the make_*_scene.py scripts

    The loop is the same, character for character, in [convertmonkey.py]
    (lines 7 to 12), [make_bunny_scene.py], [make_dragon_scene.py] and, three
    times, in [make_bunnyetc_scene.py].  Text is over code points below 256. *)

Definition LF : ascii := ascii_of_nat 10.

(** [str.isspace] on one character. *)
Definition isspace (c : ascii) : bool :=
  let n := nat_of_ascii c in
  ((9 <=? n) && (n <=? 13) || (28 <=? n) && (n <=? 32)
   || (n =? 133) || (n =? 160))%nat.

Definition snoc (s : string) (c : ascii) : string :=
  (s ++ String c EmptyString)%string.

(** [line.split()]: the maximal runs of characters that are not white space.
    [word] is the run being read. *)
Fixpoint split_from (word s : string) : list string :=
  match s with
  | EmptyString => if String.eqb word "" then [] else [word]
  | String c s' =>
      if isspace c then
        if String.eqb word "" then split_from "" s'
        else word :: split_from "" s'
      else split_from (snoc word c) s'
  end.

Definition split (line : string) : list string := split_from "" line.

(** [for line in file]: the lines of a text, each with its line feed (the
    text is taken after Python's translation of line ends to line feeds). *)
Fixpoint lines_from (line s : string) : list string :=
  match s with
  | EmptyString => if String.eqb line "" then [] else [line]
  | String c s' =>
      if Ascii.eqb c LF then snoc line c :: lines_from "" s'
      else lines_from (snoc line c) s'
  end.

Definition file_lines (text : string) : list string := lines_from "" text.

Definition of_option {A : Type} (e : exn) (o : option A) : result A :=
  match o with
  | Some a => Ok a
  | None => Raise e
  end.

(** [[f(x) for x in l]], left to right, stopping at the first exception. *)
Fixpoint comprehension {A B : Type} (f : A -> result B) (l : list A)
  : result (list B) :=
  match l with
  | [] => Ok []
  | x :: l' => y <- f x ;; ys <- comprehension f l' ;; Ok (y :: ys)
  end.

Section Reader.
Context {A : Type} `{Num A}.

(** The builtins [float] and [int] on a token: [None] is their
    [ValueError].  The loop is read for any behaviour of the two. *)
Variable float_of : string -> option A.
Variable int_of : string -> option Z.

Record mesh : Type := {
  vertices : list (list A);
  indices : list (list Z)
}.

(** [int(token) - 1] *)
Definition index (token : string) : result Z :=
  n <- of_option ValueError (int_of token) ;;
  Ok (n - 1)%Z.

(** The body of the loop, lines 8 to 12 of convertmonkey.py. *)
Definition loop_body (m : mesh) (line : string) : result mesh :=
  let tokens := split line in
  tag <- getitem tokens 0 ;;
  if String.eqb tag "v" then
    t1 <- getitem tokens 1 ;;
    x <- of_option ValueError (float_of t1) ;;
    t2 <- getitem tokens 2 ;;
    y <- of_option ValueError (float_of t2) ;;
    t3 <- getitem tokens 3 ;;
    z <- of_option ValueError (float_of t3) ;;
    Ok {| vertices := vertices m ++ [[nneg x; y; z]];
          indices := indices m |}
  else if String.eqb tag "f" then
    face <- comprehension index (slice 1 4 tokens) ;;
    Ok {| vertices := vertices m;
          indices := indices m ++ [face] |}
  else Ok m.

Fixpoint loop (m : mesh) (file : list string) : result mesh :=
  match file with
  | [] => Ok m
  | line :: rest => m' <- loop_body m line ;; loop m' rest
  end.

(** Lines 3 to 12: both lists start empty. *)
Definition read_obj (file : list string) : result mesh :=
  loop {| vertices := []; indices := [] |} file.

(** A token that [float] takes. *)
Definition is_float (token : string) : bool :=
  match float_of token with
  | Some _ => true
  | None => false
  end.

(** The tokens that the vertex branch reads, and those of them that are
    numbers. *)
Definition numeric_tokens (line : string) : list string :=
  filter is_float (slice 1 4 (split line)).

(** A line that the loop takes without an exception: it has a first token,
    and three numbers after the tag [v], or only integers among the at most
    three tokens after the tag [f]. *)
Definition well_formed (line : string) : Prop :=
  match split line with
  | [] => False
  | tag :: _ =>
      if String.eqb tag "v" then List.length (numeric_tokens line) = 3
      else if String.eqb tag "f" then
        Forall (fun t => int_of t <> None) (slice 1 4 (split line))
      else True
  end.

(** What the readers do to a position, as a map on vectors: the first
    component changes sign. *)
Definition negate_x (v : list A) : result (list A) :=
  match v with
  | x :: y :: z :: _ => Ok [nneg x; y; z]
  | _ => Raise IndexError
  end.

End Reader.

(** A record of a file: a line whose first token is the tag. *)
Definition is_record (tag line : string) : bool :=
  match split line with
  | t :: _ => String.eqb t tag
  | [] => false
  end.

Definition records (tag : string) (file : list string) : list string :=
  filter (is_record tag) file.

(** Python's [==] on floats and on lists of floats. *)
Fixpoint floats_eqb (a b : list float) : bool :=
  match a, b with
  | [], [] => true
  | x :: a', y :: b' => PrimFloat.eqb x y && floats_eqb a' b'
  | _, _ => false
  end.

(** A line feed as a text, to write files with. *)
Definition nl : string := String LF EmptyString.

(** *** The builtins on plain decimal tokens

    For the runs on concrete files, [int] and [float] are read on the tokens
    written with decimal digits.  [int_dec] takes a sign and digits, with
    single underscores between digits.  [float_dec] takes a sign, digits and
    a fraction, and divides the digits by a power of ten: this is the
    correctly rounded value when the digits stay below [2^53] and the
    fraction has at most 18 digits; it answers [None] on every other token
    (exponents, [inf], [nan] and longer numerals are outside it). *)

Definition digit_of (c : ascii) : option Z :=
  let n := nat_of_ascii c in
  if ((48 <=? n) && (n <=? 57))%nat then Some (Z.of_nat (n - 48)) else None.

(** Digits after at least one digit; [acc] is the value so far. *)
Fixpoint digits_from (acc : Z) (s : string) : option Z :=
  match s with
  | EmptyString => Some acc
  | String c s' =>
      match digit_of c with
      | Some d => digits_from (10 * acc + d) s'
      | None =>
          if Ascii.eqb c "_" then
            match s' with
            | String c' s'' =>
                match digit_of c' with
                | Some d => digits_from (10 * acc + d) s''
                | None => None
                end
            | EmptyString => None
            end
          else None
      end
  end.

Definition digits (s : string) : option Z :=
  match s with
  | String c s' =>
      match digit_of c with
      | Some d => digits_from d s'
      | None => None
      end
  | EmptyString => None
  end.

Definition int_dec (token : string) : option Z :=
  match token with
  | String "-" s => option_map Z.opp (digits s)
  | String "+" s => digits s
  | _ => digits token
  end.

(** The digits of [s] up to its end or its first point: value, count, rest. *)
Fixpoint plain_digits (acc : Z) (n : nat) (s : string) : Z * nat * string :=
  match s with
  | String c s' =>
      match digit_of c with
      | Some d => plain_digits (10 * acc + d) (S n) s'
      | None => (acc, n, s)
      end
  | EmptyString => (acc, n, s)
  end.

Definition unsigned_dec (s : string) : option float :=
  let '(ip, ni, s1) := plain_digits 0 0 s in
  let '(m, nf, s2) :=
    match s1 with
    | String "." s1' => plain_digits ip 0 s1'
    | _ => (ip, 0%nat, s1)
    end in
  if (String.eqb s2 "" && (0 <? ni + nf)%nat && (m <? 2 ^ 53)%Z
      && (nf <=? 18)%nat)%bool
  then Some (PrimFloat.of_uint63 (Uint63.of_Z m)
             / PrimFloat.of_uint63 (Uint63.of_Z (10 ^ Z.of_nat nf)))%float
  else None.

Definition float_dec (token : string) : option float :=
  match token with
  | String "-" s => option_map PrimFloat.opp (unsigned_dec s)
  | String "+" s => unsigned_dec s
  | _ => unsigned_dec token
  end.

(** ** scenes/scene_from_blend.py: the compaction of short vectors

    Lines 112 to 117 build two patterns and substitute them in the dumped
    text.  The patterns use literals, the class [[0-9]], greedy [*], [+]
    and [?], and numbered groups: this fragment of Python's [re] is embedded
    with its backtracking order.  A matcher takes the text still to read,
    the groups captured so far and a continuation; an alternative that fails
    later is undone by trying the next one. *)

Abbreviation text := (list ascii).

Inductive atom : Type :=
| Chr (c : ascii)              (* one character, escaped or not *)
| Range (lo hi : ascii)        (* [[lo-hi]] *)
| OneOf (cs : list ascii).     (* a class of listed characters *)

Definition atom_matches (a : atom) (c : ascii) : bool :=
  match a with
  | Chr c' => Ascii.eqb c c'
  | Range lo hi =>
      ((nat_of_ascii lo <=? nat_of_ascii c)
       && (nat_of_ascii c <=? nat_of_ascii hi))%nat
  | OneOf cs => existsb (Ascii.eqb c) cs
  end.

Inductive regex : Type :=
| Eps                          (* the empty pattern *)
| One (a : atom)
| Star (a : atom)              (* [a*] *)
| Plus (a : atom)              (* [a+] *)
| Opt (r : regex)              (* [(?:r)?] *)
| Cat (r1 r2 : regex)
| Group (i : nat) (r : regex). (* [(r)], the group numbered [i] *)

Definition captures : Type := list (nat * text).

(** Greedy repetition of an atom: the longest run first, then shorter ones. *)
Fixpoint star {R : Type} (a : atom) (s : text) (k : text -> option R)
  : option R :=
  match s with
  | c :: s' =>
      if atom_matches a c then
        match star a s' k with
        | Some r => Some r
        | None => k s
        end
      else k s
  | [] => k s
  end.

Fixpoint rmatch {R : Type} (r : regex) (s : text) (caps : captures)
  (k : text -> captures -> option R) : option R :=
  match r with
  | Eps => k s caps
  | One a =>
      match s with
      | c :: s' => if atom_matches a c then k s' caps else None
      | [] => None
      end
  | Star a => star a s (fun s' => k s' caps)
  | Plus a =>
      match s with
      | c :: s' =>
          if atom_matches a c then star a s' (fun s'' => k s'' caps)
          else None
      | [] => None
      end
  | Opt r' =>
      match rmatch r' s caps k with
      | Some x => Some x
      | None => k s caps
      end
  | Cat r1 r2 => rmatch r1 s caps (fun s' caps' => rmatch r2 s' caps' k)
  | Group i r' =>
      rmatch r' s caps
        (fun s' caps' =>
           k s' ((i, firstn (List.length s - List.length s') s) :: caps'))
  end.

(** A match that starts at the head of [s]: the groups and the text left. *)
Definition match_at (r : regex) (s : text) : option (captures * text) :=
  rmatch r s [] (fun s' caps => Some (caps, s')).

(** A replacement template: literal text and group references [\i]. *)
Inductive piece : Type :=
| Lit (t : text)
| Ref (i : nat).

Definition group (caps : captures) (i : nat) : text :=
  match find (fun kv => Nat.eqb (fst kv) i) caps with
  | Some kv => snd kv
  | None => []
  end.

Fixpoint expand (repl : list piece) (caps : captures) : text :=
  match repl with
  | [] => []
  | Lit t :: repl' => t ++ expand repl' caps
  | Ref i :: repl' => group caps i ++ expand repl' caps
  end.

(** [re.sub(pattern, repl, string)]: the text is scanned from the left; at a
    position where the pattern matches, the expansion of [repl] is written
    and the scan goes on after the match; elsewhere the character is copied.
    [skip] counts the characters of a match still to pass.  Both patterns of
    the script start with a bracket, so a match has at least one character;
    a match of no character is treated as no match. *)
Fixpoint sub_from (pattern : regex) (repl : list piece) (skip : nat)
  (s : text) : text :=
  match s with
  | [] => []
  | c :: s' =>
      match skip with
      | S n => sub_from pattern repl n s'
      | O =>
          match match_at pattern s with
          | Some (caps, rest) =>
              match (List.length s - List.length rest)%nat with
              | S n => expand repl caps ++ sub_from pattern repl n s'
              | O => c :: sub_from pattern repl 0 s'
              end
          | None => c :: sub_from pattern repl 0 s'
          end
      end
  end.

Definition sub (pattern : regex) (repl : list piece) (s : text) : text :=
  sub_from pattern repl 0 s.

Definition chars (s : string) : text := list_ascii_of_string s.

Definition lit (c : ascii) : regex := One (Chr c).

Fixpoint seq (rs : list regex) : regex :=
  match rs with
  | [] => Eps
  | r :: rs' => Cat r (seq rs')
  end.

(** [number_pattern = "-?[0-9]+(?:\.[0-9]+)?"] *)
Definition number_pattern : regex :=
  seq [Opt (lit "-"); Plus (Range "0" "9");
       Opt (seq [lit "."; Plus (Range "0" "9")])].

(** [double_pattern = "\[\n *({0}),\n *({0})\n *\]"], where the [\n] of the
    Python literal is a line feed. *)
Definition double_pattern : regex :=
  seq [lit "["; lit LF; Star (Chr " "); Group 1 number_pattern;
       lit ","; lit LF; Star (Chr " "); Group 2 number_pattern;
       lit LF; Star (Chr " "); lit "]"].

(** [triple_pattern = "\[\n *({0}),\n *({0}),\n *({0})\n *\]"] *)
Definition triple_pattern : regex :=
  seq [lit "["; lit LF; Star (Chr " "); Group 1 number_pattern;
       lit ","; lit LF; Star (Chr " "); Group 2 number_pattern;
       lit ","; lit LF; Star (Chr " "); Group 3 number_pattern;
       lit LF; Star (Chr " "); lit "]"].

(** [r"[\1, \2]"] and [r"[\1, \2, \3]"] *)
Definition double_repl : list piece :=
  [Lit (chars "["); Ref 1; Lit (chars ", "); Ref 2; Lit (chars "]")].

Definition triple_repl : list piece :=
  [Lit (chars "["); Ref 1; Lit (chars ", "); Ref 2; Lit (chars ", "); Ref 3;
   Lit (chars "]")].

(** Lines 116 and 117: the two substitutions on [scene_string]. *)
Definition compact (scene_string : text) : text :=
  sub triple_pattern triple_repl (sub double_pattern double_repl scene_string).

(** ** Textbook quaternions, for comparison with the script's

    These two definitions are not in the repository.  [hamilton] is the
    quaternion product of the textbooks ([i * j = k]), and [rotate_by q v]
    the rotation of [v] by the unit quaternion [q], [q (0, v) q*], the
    orientation that [q] stands for (in Blender as in the textbooks). *)

Section Textbook.
Context {A : Type} `{Num A}.
Local Open Scope num_scope.

Definition hamilton (a b : list A) : result (list A) :=
  match a, b with
  | a0 :: a1 :: a2 :: a3 :: _, b0 :: b1 :: b2 :: b3 :: _ =>
      Ok [a0 * b0 - a1 * b1 - a2 * b2 - a3 * b3;
          a0 * b1 + a1 * b0 + a2 * b3 - a3 * b2;
          a0 * b2 - a1 * b3 + a2 * b0 + a3 * b1;
          a0 * b3 + a1 * b2 - a2 * b1 + a3 * b0]
  | _, _ => Raise IndexError
  end.

Definition rotate_by (q v : list A) : result (list A) :=
  qv <- hamilton q (n0 :: v) ;;
  q' <- inv_quat q ;;
  r <- hamilton qv q' ;;
  Ok (slice_last 3 r).

End Textbook.

(** The quaternion [(3/5, 0, 0, 4/5)] has norm one and turns about the third
    axis by the angle of cosine [-7/25] and sine [24/25]. *)
Definition q345 : list R := [3 / 5; 0; 0; 4 / 5]%R.

(** *** Files for the runs below *)

(** The triangle of the specification's end-to-end example. *)
Definition triangle_obj : string :=
  ("v 0 0 0" ++ nl ++ "v 1 0 0" ++ nl ++ "v 0 1 0" ++ nl ++ "f 1 2 3" ++ nl)
  %string.

(** A face and no vertex. *)
Definition face_only_obj : string := ("f 1 2 3" ++ nl)%string.

(** A face line with two indices, and a vertex line with two numbers. *)
Definition short_face_obj : string := ("f 1 2" ++ nl)%string.

Definition short_vertex_obj : string := ("v 1 2" ++ nl)%string.

(** A vertex, an empty line, a face. *)
Definition blank_line_obj : string :=
  ("v 0 0 0" ++ nl ++ nl ++ "f 1 1 1" ++ nl)%string.

Definition empty_mesh : @mesh float := {| vertices := []; indices := [] |}.

(** *** Inputs for the camera and the round trips *)

(** [math.radians], which multiplies by the constant [pi / 180.0]. *)
Definition radians (x : float) : float := (x * (pi / 180))%float.

(** A scene whose camera has the given position, the identity quaternion
    [(1, 0, 0, 0)] and the given lens angle. *)
Definition identity_scene (position : list float) (angle : float)
  (width height : Z) (world : nodes) : blend_scene :=
  {| camera_location := position;
     camera_rotation_quaternion := [1; 0; 0; 0]%float;
     camera_angle := angle;
     resolution_x := width;
     resolution_y := height;
     world_nodes := world |}.

(** A transform and then the same again. *)
Definition twice {X : Type} (f : X -> result X) (x : X) : result X :=
  y <- f x ;; f y.

(** Two reals within [1e-9] of each other. *)
Definition within_1e9 (a b : R) : Prop := (Rabs (a - b) <= 1 / 10 ^ 9)%R.

(** *** The texts and the reading order of the two patterns

    What follows is not in the script: the layout of a list that
    [json.dumps(..., indent=4)] writes, the one-line layout of the
    replacements, and a reader that goes through a text once, from the left,
    without going back.  The reader is shown below to give what the
    backtracking matcher gives on both patterns. *)

(** [re.fullmatch]: the pattern must take the whole text. *)
Definition fullmatch (r : regex) (s : text) : bool :=
  match rmatch r s [] (fun s' _ => match s' with
                                   | [] => Some tt
                                   | _ :: _ => None
                                   end) with
  | Some _ => true
  | None => false
  end.

(** The numbers that [json.dumps] writes, exponents included:
    [-?[0-9]+(?:\.[0-9]+)?(?:[eE][-+]?[0-9]+)?]. *)
Definition json_number_pattern : regex :=
  seq [Opt (lit "-"); Plus (Range "0" "9");
       Opt (seq [lit "."; Plus (Range "0" "9")]);
       Opt (seq [One (OneOf ["e"; "E"]%char); Opt (One (OneOf ["-"; "+"]%char));
                 Plus (Range "0" "9")])].

Definition spaces (n : nat) : text := repeat " "%char n.

(** The element lines of a list written over several lines: each element
    after its indentation, a comma and a line feed between two elements. *)
Fixpoint spread_items (items : list (nat * text)) : text :=
  match items with
  | [] => []
  | (a, n) :: rest =>
      match rest with
      | [] => spaces a ++ n
      | _ :: _ => spaces a ++ n ++ ","%char :: LF :: spread_items rest
      end
  end.

(** A list written over several lines: the bracket, a line feed, the element
    lines, a line feed, the indentation of the closing bracket, the bracket.
    [json.dumps] writes every element at the same indentation and the
    closing bracket four columns less; the patterns accept any. *)
Definition spread (items : list (nat * text)) (close : nat) : text :=
  "["%char :: LF :: spread_items items ++ LF :: spaces close ++ ["]"%char].

(** A list written on one line, elements separated by a comma and a space. *)
Fixpoint inline_items (elems : list text) : text :=
  match elems with
  | [] => []
  | n :: rest =>
      match rest with
      | [] => n
      | _ :: _ => n ++ ","%char :: " "%char :: inline_items rest
      end
  end.

Definition inline (elems : list text) : text :=
  "["%char :: inline_items elems ++ ["]"%char].

Definition is_digit (c : ascii) : bool := atom_matches (Range "0" "9") c.

Definition is_space (c : ascii) : bool := atom_matches (Chr " ") c.

Fixpoint take_while (p : ascii -> bool) (s : text) : text :=
  match s with
  | c :: s' => if p c then c :: take_while p s' else []
  | [] => []
  end.

Fixpoint drop_while (p : ascii -> bool) (s : text) : text :=
  match s with
  | c :: s' => if p c then drop_while p s' else s
  | [] => []
  end.

(** One digit or more. *)
Definition read_digits (s : text) : option (text * text) :=
  match take_while is_digit s with
  | [] => None
  | ds => Some (ds, drop_while is_digit s)
  end.

(** A minus sign, if there is one, and the text after it. *)
Definition read_sign (s : text) : text * text :=
  match s with
  | c :: s' => if Ascii.eqb c "-" then ([c], s') else ([], s)
  | [] => ([], s)
  end.

(** A numeral of [number_pattern], read from the left: the numeral and the
    text after it. *)
Definition read_number (s : text) : option (text * text) :=
  let '(sign, s1) := read_sign s in
  match read_digits s1 with
  | None => None
  | Some (ds, s2) =>
      match s2 with
      | c :: s3 =>
          if Ascii.eqb c "." then
            match read_digits s3 with
            | Some (fs, s4) => Some (sign ++ ds ++ c :: fs, s4)
            | None => Some (sign ++ ds, s2)
            end
          else Some (sign ++ ds, s2)
      | [] => Some (sign ++ ds, s2)
      end
  end.

(** The groups of a list of elements, numbered from [i], last group first. *)
Fixpoint caps_of (i : nat) (items : list (nat * text)) (caps : captures)
  : captures :=
  match items with
  | [] => caps
  | (_, n) :: rest => caps_of (S i) rest ((i, n) :: caps)
  end.

(** [k + 1] element lines, the first in group [i], up to the line feed after
    the last. *)
Fixpoint read_elems (k i : nat) (s : text) (caps : captures)
  : option (captures * text) :=
  match read_number (drop_while is_space s) with
  | None => None
  | Some (n, rest) =>
      match k with
      | O =>
          match rest with
          | c :: r => if Ascii.eqb c LF then Some ((i, n) :: caps, r) else None
          | [] => None
          end
      | S k' =>
          match rest with
          | c1 :: c2 :: r =>
              if (Ascii.eqb c1 "," && Ascii.eqb c2 LF)%bool
              then read_elems k' (S i) r ((i, n) :: caps)
              else None
          | _ => None
          end
      end
  end.

(** A list of [k + 1] numerals over several lines, at the head of [s]. *)
Definition read_vector (k : nat) (s : text) : option (captures * text) :=
  match s with
  | c1 :: c2 :: s1 =>
      if (Ascii.eqb c1 "[" && Ascii.eqb c2 LF)%bool then
        match read_elems k 1 s1 [] with
        | Some (caps, r) =>
            match drop_while is_space r with
            | c :: rest => if Ascii.eqb c "]" then Some (caps, rest) else None
            | [] => None
            end
        | None => None
        end
      else None
  | _ => None
  end.

(** The characters a numeral is made of. *)
Definition num_char (c : ascii) : bool :=
  (is_digit c || Ascii.eqb c "-" || Ascii.eqb c ".")%bool.

(** The form of a numeral of [number_pattern]: an optional minus sign, one
    digit or more, and optionally a point and one digit or more. *)
Definition numeral (n : text) : Prop :=
  exists sign ds frac,
    n = sign ++ ds ++ frac
    /\ (sign = [] \/ sign = ["-"%char])
    /\ ds <> [] /\ forallb is_digit ds = true
    /\ (frac = []
        \/ exists fs, frac = "."%char :: fs
                      /\ fs <> [] /\ forallb is_digit fs = true).

(** The two patterns share their parts: [k + 1] element lines, the first in
    group [i], then the closing line. *)
Definition closing : regex := seq [Star (Chr " "); lit "]"].

Fixpoint elems_pattern (k i : nat) : regex :=
  match k with
  | O =>
      Cat (Star (Chr " ")) (Cat (Group i number_pattern) (Cat (lit LF) closing))
  | S k' =>
      Cat (Star (Chr " "))
        (Cat (Group i number_pattern)
           (Cat (lit ",") (Cat (lit LF) (elems_pattern k' (S i)))))
  end.

(** A text that cannot carry a numeral on: it is empty or starts with
    something that is neither a digit nor a point. *)
Definition ends_numeral (x : text) : Prop :=
  match x with
  | c :: _ => (is_digit c || Ascii.eqb c ".")%bool = false
  | [] => True
  end.

Definition numerals (items : list (nat * text)) : Prop :=
  Forall (fun item => numeral (snd item)) items.

(** What [json.dumps] writes, at the top level, for the list of the floats
    [1e-05], [0.5] and [0.5]. *)
Definition exponent_vector : text :=
  spread [(4, chars "1e-05"); (4, chars "0.5"); (4, chars "0.5")] 0.

Definition bracket_free (s : text) : Prop := ~ In "["%char s.

(** What the scan needs to know of a pattern and its replacement: a match
    starts with a bracket and a line feed and has no other bracket, it is
    the same whatever follows it, and its replacement starts with a bracket,
    goes on with another character than a line feed and has no other
    bracket. *)
Definition bracketed (pattern : regex) (repl : list piece) : Prop :=
  forall s caps rest,
    match_at pattern s = Some (caps, rest) ->
    exists w e c,
      s = "["%char :: LF :: w ++ rest
      /\ bracket_free w
      /\ (forall rest', match_at pattern ("["%char :: LF :: w ++ rest')
                        = Some (caps, rest'))
      /\ expand repl caps = "["%char :: c :: e
      /\ c <> LF
      /\ bracket_free (c :: e).

(** The continuation of a numeral in both patterns is a comma or a line
    feed: it refuses a digit and a point. *)
Definition refuses_numeral {X : Type} (k : text -> captures -> option X)
  : Prop :=
  forall c x caps,
    (is_digit c || Ascii.eqb c ".")%bool = true -> k (c :: x) caps = None.

(** No match of the pattern at any place of the text. *)
Definition quiet (pattern : regex) (t : text) : Prop :=
  forall pre u, t = pre ++ u -> match_at pattern u = None.

(** ** More of scenes/scene_from_blend.py

    The rest of the script: the meshes and the [objects] of the scene
    (lines 84 to 101) and the name of the output file (lines 103 to 110). *)

(** *** Lines 85 to 101: the meshes *)

(** What the script reads of an object of [bpy.data.objects]. *)
Record blend_object : Type := {
  name : string;
  type : string;
  hide_render : bool;
  materials : list nodes         (* [data.materials.values()] *)
}.

(** The value stored under the name of a mesh:
    [{"type": ..., "file": ..., "material": {"type": ..., "color": ...}}]. *)
Record material_entry : Type := {
  material_type : string;
  material_color : list float
}.

Record object_entry : Type := {
  entry_type : string;
  file : string;
  material : material_entry
}.

(** A Python [dict] with string keys, in insertion order. *)
Definition dict (V : Type) : Type := list (string * V).

(** [d[k] = v]: the value of a key that is there is replaced where it
    stands, a new key goes to the end. *)
Fixpoint setitem {V : Type} (k : string) (v : V) (d : dict V) : dict V :=
  match d with
  | [] => [(k, v)]
  | (k', v') :: d' =>
      if String.eqb k' k then (k, v) :: d' else (k', v') :: setitem k v d'
  end.

(** [d.get(k)] *)
Definition getkey {V : Type} (k : string) (d : dict V) : option V :=
  match find (fun kv => String.eqb (fst kv) k) d with
  | Some kv => Some (snd kv)
  | None => None
  end.

(** [m.type == "MESH" and not m.hide_render] *)
Definition renderable (m : blend_object) : bool :=
  (String.eqb (type m) "MESH" && negb (hide_render m))%bool.

(** [meshes = [m for m in bpy.data.objects if ...]] *)
Definition meshes (objects : list blend_object) : list blend_object :=
  filter renderable objects.

(** [f"objects/{mesh.name}.obj"], the path given to the exporter. *)
Definition export_path (mesh : blend_object) : string :=
  ("objects/" ++ name mesh ++ ".obj")%string.

(** What the loop over the meshes builds: the paths handed to
    [bpy.ops.wm.obj_export], in order, and [scene_dict["objects"]]. *)
Record export_state : Type := {
  exported : list string;
  objects : dict object_entry
}.

(** One turn of the loop, lines 87 to 101; [cwd] is [os.getcwd()].  The
    selection of the mesh around the export is the host's business and is
    left out. *)
Definition export_mesh (cwd : string) (st : export_state)
  (mesh : blend_object) : result export_state :=
  let exported' := exported st ++ [export_path mesh] in
  color <- color (materials mesh) ;;
  Ok {| exported := exported';
        objects :=
          setitem (name mesh)
            {| entry_type := "mesh";
               file := (cwd ++ "/objects/" ++ name mesh ++ ".obj")%string;
               material := {| material_type := "diffuse";
                              material_color := color |} |}
            (objects st) |}.

Fixpoint export_loop (cwd : string) (st : export_state)
  (ms : list blend_object) : result export_state :=
  match ms with
  | [] => Ok st
  | mesh :: rest => st' <- export_mesh cwd st mesh ;; export_loop cwd st' rest
  end.

(** Lines 85 to 101, from an empty [objects]. *)
Definition export_meshes (cwd : string) (objs : list blend_object)
  : result export_state :=
  export_loop cwd {| exported := []; objects := [] |} (meshes objs).

(** *** Lines 103 to 110: the name of the output file *)

(** [s.endswith(suffix)]: some tail of [s] is [suffix]. *)
Fixpoint endswith (s suffix : string) : bool :=
  (String.eqb s suffix
   || match s with
      | String _ s' => endswith s' suffix
      | EmptyString => false
      end)%bool.

(** [s[:-n]] for a positive [n]: [s] without its last [n] characters. *)
Definition drop_last (n : nat) (s : string) : string :=
  substring 0 (String.length s - n) s.

(** [str(i)] for a natural number. *)
Definition str_of_nat (i : nat) : string :=
  DecimalString.NilZero.string_of_uint (Nat.to_uint i).

(** [output_name = blend_name[:-6] if blend_name.endswith(".blend") else
    "untitled"] *)
Definition output_name (blend_name : string) : string :=
  if endswith blend_name ".blend" then drop_last 6 blend_name
  else "untitled"%string.

(** [f"{output_name}_{i}.json"] *)
Definition numbered (output_name : string) (i : nat) : string :=
  (output_name ++ "_" ++ str_of_nat i ++ ".json")%string.

(** The [for] loop over [range(1, 100)]; [path_exists] is
    [os.path.exists] on the file system as the script finds it. *)
Fixpoint name_loop (path_exists : string -> bool) (output_name : string)
  (range : list nat) (output_filename : string) : string :=
  match range with
  | [] => output_filename
  | i :: rest =>
      if path_exists output_filename
      then name_loop path_exists output_name rest (numbered output_name i)
      else output_filename
  end.

Definition output_filename (path_exists : string -> bool)
  (blend_name : string) : string :=
  name_loop path_exists (output_name blend_name) (List.seq 1 99)
    (output_name blend_name ++ ".json")%string.

(** The names the loop can try, by their rank: the plain name, then the
    numbered ones. *)
Definition tried (output_name : string) (j : nat) : string :=
  match j with
  | O => (output_name ++ ".json")%string
  | S _ => numbered output_name j
  end.

(** ** Measures used in the statements below (not in the script) *)

Section Measures.
Context {A : Type} `{Num A}.
Local Open Scope num_scope.

(** The scalar product of two vectors, and the squared norm. *)
Fixpoint dot (a b : list A) : A :=
  match a, b with
  | x :: a', y :: b' => x * y + dot a' b'
  | _, _ => n0
  end.

Definition norm2 (a : list A) : A := dot a a.

End Measures.

(** A mesh after another: what reading one file after the other gives. *)
Definition mesh_app {A : Type} (m d : @mesh A) : @mesh A :=
  {| vertices := vertices m ++ vertices d;
     indices := indices m ++ indices d |}.

(** A line that counts for the readers: its first token is [v] or [f]. *)
Definition relevant (line : string) : bool :=
  (is_record "v" line || is_record "f" line)%bool.

(** A text without its spaces and line feeds. *)
Definition strip (s : text) : text :=
  filter (fun c => negb (Ascii.eqb c " " || Ascii.eqb c LF)) s.

(** Objects of a host file for the examples: a cube without material, a
    lamp, a hidden sphere whose material has a node without input, and a
    second object named like the cube, with a red material. *)
Definition example_objects : list blend_object :=
  [ {| name := "Cube"; type := "MESH"; hide_render := false;
       materials := [] |};
    {| name := "Lamp"; type := "LIGHT"; hide_render := false;
       materials := [] |};
    {| name := "Sphere"; type := "MESH"; hide_render := true;
       materials := [[("Diffuse BSDF"%string, {| inputs := [] |})]] |};
    {| name := "Cube"; type := "MESH"; hide_render := false;
       materials :=
         [[("Diffuse BSDF"%string,
            {| inputs := [[1; 0; 0; 1]%float] |})]] |} ].

(** A file with a comment, a vertex with a fourth number, a normal, a
    material line and a face of four indices. *)
Definition commented_obj : string :=
  ("# cube" ++ nl ++ "v 1 2 3 1" ++ nl ++ "vn 0 0 1" ++ nl
   ++ "usemtl red" ++ nl ++ "f 1 1 1 1" ++ nl)%string.

(** A face whose tokens carry texture indices, between two good lines. *)
Definition slashed_face_obj : string :=
  ("v 0 0 0" ++ nl ++ "f 1/1 1/1 1/1" ++ nl ++ "v 1 2" ++ nl)%string.

(** A pattern whose matches are lists over several lines, replaced by the
    same lists on one line. *)
Definition collapsing (pattern : regex) (repl : list piece) : Prop :=
  forall s caps rest,
    match_at pattern s = Some (caps, rest) ->
    exists items close,
      numerals items
      /\ s = spread items close ++ rest
      /\ expand repl caps = inline (map snd items).

(** * Properties *)

(** Two results are equal when their vectors are, component by component. *)
Ltac componentwise :=
  lazymatch goal with
  | |- Ok _ = Ok _ => apply f_equal
  | _ => idtac
  end;
  repeat lazymatch goal with
         | |- _ :: _ = _ :: _ => apply f_equal2
         | |- [] = [] => reflexivity
         end.

(** Unfolds the script's vector functions on lists given by their
    components. *)
Ltac run_vectors :=
  cbv [rotate_quat rotate_by inv_quat multiply_quats hamilton xzy_to_xyz
       add_vec bind getitem nth_error slice slice_last skipn firstn map
       List.length Nat.sub nadd nsub nmul nneg n0 n1 R_Num].

(** ** The rotation helper *)

Section ExactArithmetic.
Context {A : Type} `{NumRing A}.
Local Open Scope num_scope.

Add Ring num_ring_tac : num_ring.

Lemma multiply_quats_reversed (a0 a1 a2 a3 b0 b1 b2 b3 : A) :
  multiply_quats [a0; a1; a2; a3] [b0; b1; b2; b3]
  = hamilton [b0; b1; b2; b3] [a0; a1; a2; a3].
Proof.
  unfold multiply_quats, hamilton. componentwise; ring.
Qed.

Lemma rotate_quat_exact (q0 q1 q2 q3 v0 v1 v2 : A) :
  rotate_quat [v0; v1; v2] [q0; q1; q2; q3]
  = rotate_by [q0; q1; q2; q3] [v0; v1; v2].
Proof.
  unfold rotate_quat, rotate_by. cbn. componentwise; ring.
Qed.

(** [rotate_by] is a rotation: for a quaternion of norm one, the conjugate
    undoes it. *)
Lemma rotate_by_conjugate (q0 q1 q2 q3 v0 v1 v2 : A) :
  q0 * q0 + q1 * q1 + q2 * q2 + q3 * q3 = n1 ->
  (v' <- rotate_by [q0; q1; q2; q3] [v0; v1; v2] ;;
   rotate_by [q0; - q1; - q2; - q3] v')
  = Ok [v0; v1; v2].
Proof.
  intros Hnorm. unfold rotate_by. cbn.
  set (n := q0 * q0 + q1 * q1 + q2 * q2 + q3 * q3) in Hnorm.
  componentwise.
  - transitivity (n * n * v0); [subst n; ring | rewrite Hnorm; ring].
  - transitivity (n * n * v1); [subst n; ring | rewrite Hnorm; ring].
  - transitivity (n * n * v2); [subst n; ring | rewrite Hnorm; ring].
Qed.

(** Its direction: about the third axis, with [c] and [s] the cosine and
    the sine of half the angle, the first axis goes to cosine and sine of
    the angle, that is towards the second axis for a positive angle. *)
Lemma rotate_by_third_axis (c s : A) :
  rotate_by [c; n0; n0; s] [n1; n0; n0]
  = Ok [c * c - s * s; (n1 + n1) * (c * s); n0].
Proof.
  unfold rotate_by. cbn. componentwise; ring.
Qed.

(** C1, as the script has it.  For every quaternion [q] and vector [v], over
    exact numbers: [rotate_quat] conjugates [q], multiplies the pure
    quaternion [(0, v)] by [q] and the conjugate by the result, and keeps the
    last three components; [multiply_quats a b] is the quaternion product
    taken as [b * a]; hence the vector returned is [q (0, v) q*], that is [v]
    rotated by the orientation of [q] itself, and, when [q] has norm one,
    rotating it by the conjugate of [q] gives [v] back. *)
Theorem rotate_quat_rotates_by_q (q0 q1 q2 q3 v0 v1 v2 : A) :
  let q := [q0; q1; q2; q3] in
  let v := [v0; v1; v2] in
  inv_quat q = Ok [q0; - q1; - q2; - q3]
  /\ (exists inner rotated,
        multiply_quats (n0 :: v) q = Ok inner
        /\ multiply_quats [q0; - q1; - q2; - q3] inner = Ok rotated
        /\ rotate_quat v q = Ok (slice_last 3 rotated))
  /\ (forall a0 a1 a2 a3 b0 b1 b2 b3 : A,
        multiply_quats [a0; a1; a2; a3] [b0; b1; b2; b3]
        = hamilton [b0; b1; b2; b3] [a0; a1; a2; a3])
  /\ rotate_quat v q = rotate_by q v
  /\ (q0 * q0 + q1 * q1 + q2 * q2 + q3 * q3 = n1 ->
      (v' <- rotate_quat v q ;; rotate_by [q0; - q1; - q2; - q3] v') = Ok v).
Proof.
  intros q v. split; [reflexivity|]. split.
  - eexists; eexists. split; [reflexivity|]. split; reflexivity.
  - split; [apply multiply_quats_reversed|].
    split; [apply rotate_quat_exact|].
    intros Hnorm. subst q v. rewrite rotate_quat_exact.
    apply rotate_by_conjugate. exact Hnorm.
Qed.

End ExactArithmetic.

Lemma rotate_quat_rotates_by_q_witness :
  rotate_quat [1; 0; 0]%Z [0; 0; 0; 1]%Z = rotate_by [0; 0; 0; 1]%Z [1; 0; 0]%Z
  /\ (v' <- rotate_quat [1; 0; 0]%Z [0; 0; 0; 1]%Z ;;
      rotate_by [0; 0; 0; -1]%Z v') = Ok [1; 0; 0]%Z.
Proof.
  destruct (rotate_quat_rotates_by_q (A := Z) 0 0 0 1 1 0 0)%Z
    as (_ & _ & _ & E & U).
  split; [exact E | apply U; reflexivity].
Defined.

(** C1, as stated, fails: at [q345] and the first axis the script returns the
    vector turned by [q345], which has second component [24/25]; the inverse
    orientation gives [-24/25]. *)
Lemma rotate_quat_not_inverse :
  (3 / 5 * (3 / 5) + 0 * 0 + 0 * 0 + 4 / 5 * (4 / 5) = 1)%R
  /\ rotate_quat [1; 0; 0]%R q345 = Ok [- 7 / 25; 24 / 25; 0]%R
  /\ (q' <- inv_quat q345 ;; rotate_by q' [1; 0; 0]%R)
     = Ok [- 7 / 25; - 24 / 25; 0]%R
  /\ rotate_quat [1; 0; 0]%R q345
     <> (q' <- inv_quat q345 ;; rotate_by q' [1; 0; 0]%R).
Proof.
  assert (E1 : rotate_quat [1; 0; 0]%R q345 = Ok [- 7 / 25; 24 / 25; 0]%R).
  { unfold q345. run_vectors. componentwise; lra. }
  assert (E2 : (q' <- inv_quat q345 ;; rotate_by q' [1; 0; 0]%R)
               = Ok [- 7 / 25; - 24 / 25; 0]%R).
  { unfold q345. run_vectors. componentwise; lra. }
  split; [lra|]. split; [exact E1|]. split; [exact E2|].
  rewrite E1, E2. intros E. injection E as E. lra.
Qed.

(** The same on the floats the script computes with: a quarter turn about
    the third axis takes the first axis to the second, not to its opposite. *)
Example rotate_quat_quarter_turn :
  let h := 0x1.6a09e667f3bcdp-1%float in
  rotate_quat [1; 0; 0]%float [h; 0; 0; h]%float
  = Ok [0; 0x1.0000000000001p+0; 0]%float.
Proof. vm_compute. reflexivity. Qed.

(** ** The OBJ readers *)

Section ReaderFacts.
Context {A : Type} `{Num A}.
Variable float_of : string -> option A.
Variable int_of : string -> option Z.

Lemma bind_ok {X Y : Type} (r : result X) (k : X -> result Y) (y : Y) :
  bind r k = Ok y -> exists x, r = Ok x /\ k x = Ok y.
Proof.
  destruct r as [x|e]; simpl; intros E; [eauto | discriminate].
Qed.

(** What one turn of the loop does when it does not raise. *)
Lemma loop_body_ok (m m' : mesh) (line : string) :
  loop_body float_of int_of m line = Ok m' ->
  (is_record "v" line = true /\ is_record "f" line = false
   /\ indices m' = indices m
   /\ exists t1 t2 t3 x y z,
        slice 1 4 (split line) = [t1; t2; t3]
        /\ float_of t1 = Some x /\ float_of t2 = Some y
        /\ float_of t3 = Some z
        /\ vertices m' = vertices m ++ [[nneg x; y; z]])
  \/ (is_record "f" line = true /\ is_record "v" line = false
      /\ vertices m' = vertices m
      /\ exists face,
           comprehension (index int_of) (slice 1 4 (split line)) = Ok face
           /\ indices m' = indices m ++ [face])
  \/ (is_record "v" line = false /\ is_record "f" line = false /\ m' = m).
Proof.
  unfold loop_body, is_record.
  destruct (split line) as [|tag tokens] eqn:E; [discriminate|].
  cbn [getitem nth_error bind].
  destruct (String.eqb tag "v") eqn:Ev.
  - apply String.eqb_eq in Ev. subst tag. intros R. left.
    destruct tokens as [|t1 [|t2 [|t3 more]]]; cbn in R; try discriminate;
      destruct (float_of t1) as [x|] eqn:E1; cbn in R; try discriminate;
      try (destruct (float_of t2) as [y|] eqn:E2; cbn in R; try discriminate);
      try (destruct (float_of t3) as [z|] eqn:E3; cbn in R; try discriminate).
    injection R as <-. cbn.
    repeat split; try reflexivity.
    exists t1, t2, t3, x, y, z. repeat split; assumption.
  - destruct (String.eqb tag "f") eqn:Ef.
    + intros R. right; left. apply bind_ok in R as (face & Hf & R).
      injection R as <-. cbn. repeat split; try reflexivity.
      exists face. split; [exact Hf | reflexivity].
    + intros R. injection R as <-. right; right. repeat split.
Qed.

Lemma loop_spec (file : list string) : forall m m' : mesh,
  loop float_of int_of m file = Ok m' ->
  exists vs fs,
    vertices m' = vertices m ++ vs
    /\ indices m' = indices m ++ fs
    /\ List.length vs = List.length (records "v" file)
    /\ Forall2 (fun line face =>
                  comprehension (index int_of) (slice 1 4 (split line)) = Ok face)
               (records "f" file) fs.
Proof.
  induction file as [|line rest IH]; intros m m' R.
  - injection R as <-. exists [], []. rewrite !app_nil_r.
    repeat split; constructor.
  - cbn [loop] in R. apply bind_ok in R as (m1 & B & R).
    apply IH in R as (vs & fs & Hv & Hi & Hn & Hf).
    unfold records in *. cbn [filter].
    apply loop_body_ok in B
      as [(-> & -> & Bi & _ & _ & _ & x & y & z & _ & _ & _ & _ & Bv)
         |[(-> & -> & Bv & face & Hface & Bi)|(-> & -> & ->)]].
    + exists ([nneg x; y; z] :: vs), fs. rewrite Hv, Hi, Bv, Bi, <- app_assoc.
      repeat split; cbn; [congruence | exact Hf].
    + exists vs, (face :: fs). rewrite Hv, Hi, Bv, Bi, <- app_assoc.
      repeat split; [exact Hn | constructor; assumption].
    + exists vs, fs. repeat split; assumption.
Qed.

Lemma comprehension_index (tokens : list string) : forall face : list Z,
  comprehension (index int_of) tokens = Ok face ->
  Forall2 (fun token i => exists n, int_of token = Some n /\ i = (n - 1)%Z)
          tokens face.
Proof.
  induction tokens as [|t ts IH]; intros face R.
  - injection R as <-. constructor.
  - cbn [comprehension] in R. apply bind_ok in R as (i & Hi & R).
    apply bind_ok in R as (js & His & R). injection R as <-.
    constructor; [|apply IH; exact His].
    unfold index in Hi. destruct (int_of t) as [n|]; [|discriminate].
    injection Hi as <-. exists n. split; reflexivity.
Qed.

(** C2, as the script has it.  Whenever the loop ends without an exception
    on a file with N lines of tag [v] and M lines of tag [f], the mesh has
    exactly N vertices and M faces, in the order of the file, and a face
    holds, for each of the at most three tokens after the tag, the integer
    of the token less one.  Nothing compares an index with N: an index is in
    [[0, N)] exactly when the integer of its token is in [[1, N]]. *)
Theorem read_obj_counts (file : list string) (m : mesh) :
  read_obj float_of int_of file = Ok m ->
  List.length (vertices m) = List.length (records "v" file)
  /\ List.length (indices m) = List.length (records "f" file)
  /\ Forall2
       (fun line face =>
          Forall2 (fun token i =>
                     exists n,
                       int_of token = Some n /\ i = (n - 1)%Z
                       /\ ((0 <= i < Z.of_nat (List.length (vertices m)))%Z
                           <-> (1 <= n
                                <= Z.of_nat (List.length (vertices m)))%Z))
                  (slice 1 4 (split line)) face)
       (records "f" file) (indices m).
Proof.
  intros R. apply loop_spec in R as (vs & fs & Hv & Hi & Hn & Hf).
  cbn in Hv, Hi. subst. split; [exact Hn|]. split.
  - symmetry. eapply Forall2_length; eassumption.
  - eapply Forall2_impl; [|exact Hf]. cbn. intros line face Hface.
    apply comprehension_index in Hface.
    eapply Forall2_impl; [|exact Hface]. cbn.
    intros token i (n & Hn' & ->). exists n. repeat split; try assumption; lia.
Qed.

(** An exception of one turn is the exception of the whole loop, unless an
    earlier turn has raised already. *)
Lemma loop_raises (line : string) (file : list string) :
  In line file ->
  (forall m, raises (loop_body float_of int_of m line)) ->
  forall m, raises (loop float_of int_of m file).
Proof.
  intros Hin Hline. induction file as [|l rest IH]; [destruct Hin|].
  intros m. cbn [loop].
  destruct (loop_body float_of int_of m l) as [m1|e] eqn:B.
  - destruct Hin as [->|Hin].
    + destruct (Hline m) as [e E]. congruence.
    + cbn. apply IH. exact Hin.
  - exists e. reflexivity.
Qed.

Lemma short_vertex_line (m : mesh) (line : string) (tokens : list string) :
  split line = "v"%string :: tokens ->
  List.length (numeric_tokens float_of line) < 3 ->
  loop_body float_of int_of m line = Raise IndexError
  \/ loop_body float_of int_of m line = Raise ValueError.
Proof.
  intros E Hlen. unfold numeric_tokens, is_float, slice in Hlen.
  rewrite E in Hlen. cbn [skipn Nat.sub] in Hlen.
  unfold loop_body. rewrite E. cbn.
  destruct tokens as [|t1 [|t2 [|t3 more]]]; cbn in *.
  - left. reflexivity.
  - destruct (float_of t1); cbn; [left|right]; reflexivity.
  - destruct (float_of t1); cbn; [|right; reflexivity].
    destruct (float_of t2); cbn; [left|right]; reflexivity.
  - destruct (float_of t1); cbn in *; [|right; reflexivity].
    destruct (float_of t2); cbn in *; [|right; reflexivity].
    destruct (float_of t3); cbn in *; [lia|right; reflexivity].
Qed.

Lemma comprehension_total (tokens : list string) :
  Forall (fun t => int_of t <> None) tokens ->
  exists face,
    comprehension (index int_of) tokens = Ok face
    /\ List.length face = List.length tokens.
Proof.
  induction 1 as [|t ts Ht _ (face & Hface & Hlen)].
  - exists []. split; reflexivity.
  - cbn [comprehension]. rewrite Hface. unfold index.
    destruct (int_of t) as [n|]; [|contradiction].
    cbn. exists ((n - 1)%Z :: face). cbn. split; congruence.
Qed.

(** C3, as the script has it.  A line of tag [v] with fewer than three
    numbers among the three tokens after the tag (a token is missing or is
    not a number) makes its turn raise [IndexError] or [ValueError], and a
    file with such a line is never read to its end.  A line of tag [f] with
    fewer than three tokens after the tag raises nothing for that: when its
    tokens are integers, the turn appends a face of as many indices as
    there are tokens. *)
Theorem short_records (file : list string) (line : string)
  (tokens : list string) (m : mesh) :
  In line file ->
  (split line = "v"%string :: tokens ->
   List.length (numeric_tokens float_of line) < 3 ->
   (loop_body float_of int_of m line = Raise IndexError
    \/ loop_body float_of int_of m line = Raise ValueError)
   /\ raises (read_obj float_of int_of file))
  /\ (split line = "f"%string :: tokens ->
      List.length tokens < 3 ->
      Forall (fun t => int_of t <> None) tokens ->
      exists face,
        List.length face = List.length tokens
        /\ loop_body float_of int_of m line
           = Ok {| vertices := vertices m; indices := indices m ++ [face] |}).
Proof.
  intros Hin. split.
  - intros E Hlen. split; [eapply short_vertex_line; eassumption|].
    apply loop_raises with (line := line); [exact Hin|].
    intros m0. destruct (@short_vertex_line m0 _ _ E Hlen) as [R|R];
      rewrite R; eexists; reflexivity.
  - intros E Hlen Hint.
    assert (S : slice 1 4 ("f"%string :: tokens) = tokens).
    { unfold slice. change (firstn 3 tokens = tokens).
      apply firstn_all2. lia. }
    unfold loop_body. rewrite E. cbv zeta. rewrite S.
    destruct (comprehension_total Hint) as (face & -> & Hface).
    exists face. split; [exact Hface | reflexivity].
Qed.

(** A line without a token: [tokens[0]] raises. *)
Lemma blank_line (m : mesh) (line : string) :
  split line = [] -> loop_body float_of int_of m line = Raise IndexError.
Proof.
  intros E. unfold loop_body. rewrite E. reflexivity.
Qed.

(** A line whose first token is neither [v] nor [f] changes nothing. *)
Lemma other_record (m : mesh) (line tag : string) (tokens : list string) :
  split line = tag :: tokens ->
  tag <> "v"%string -> tag <> "f"%string ->
  loop_body float_of int_of m line = Ok m.
Proof.
  intros E Hv Hf. unfold loop_body. rewrite E. cbn.
  apply String.eqb_neq in Hv, Hf. rewrite Hv, Hf. reflexivity.
Qed.

(** A line of tag [v] with three numbers after the tag: the turn appends
    one vertex, the first number with its sign changed. *)
Lemma vertex_line (m : mesh) (line t1 t2 t3 : string)
  (more : list string) (x y z : A) :
  split line = "v"%string :: t1 :: t2 :: t3 :: more ->
  float_of t1 = Some x -> float_of t2 = Some y -> float_of t3 = Some z ->
  loop_body float_of int_of m line
  = Ok {| vertices := vertices m ++ [[nneg x; y; z]];
          indices := indices m |}.
Proof.
  intros E E1 E2 E3. unfold loop_body. rewrite E. cbn.
  rewrite E1. cbn. rewrite E2. cbn. rewrite E3. reflexivity.
Qed.

(** The vertex of a record is [negate_x] of the numbers of its tokens. *)
Lemma negate_x_of_numbers (x y z : A) :
  negate_x [x; y; z] = Ok [nneg x; y; z].
Proof. reflexivity. Qed.

(** The loop takes a line without an exception exactly when the line is
    well formed, whatever was read before. *)
Lemma loop_body_returns (m : mesh) (line : string) :
  well_formed float_of int_of line
  <-> exists m', loop_body float_of int_of m line = Ok m'.
Proof.
  unfold well_formed, numeric_tokens, is_float. split.
  - destruct (split line) as [|tag tokens] eqn:E; [contradiction|].
    destruct (String.eqb tag "v") eqn:Ev.
    + apply String.eqb_eq in Ev. subst tag. unfold slice.
      cbn [skipn Nat.sub].
      destruct tokens as [|t1 [|t2 [|t3 more]]]; cbn [firstn filter].
      * discriminate.
      * destruct (float_of t1); discriminate.
      * destruct (float_of t1); [destruct (float_of t2)|];
          cbn; try discriminate; destruct (float_of t2); discriminate.
      * destruct (float_of t1) as [x|] eqn:E1;
          destruct (float_of t2) as [y|] eqn:E2;
          destruct (float_of t3) as [z|] eqn:E3; cbn; try discriminate.
        intros _. eexists. eapply vertex_line; eassumption.
    + destruct (String.eqb tag "f") eqn:Ef.
      * intros Hint. unfold loop_body. rewrite E. cbn [getitem nth_error bind].
        rewrite Ev, Ef.
        destruct (comprehension_total Hint) as (face & -> & _).
        eexists. reflexivity.
      * intros _. unfold loop_body. rewrite E. cbn [getitem nth_error bind].
        rewrite Ev, Ef. eexists. reflexivity.
  - intros (m' & R). destruct (split line) as [|tag tokens] eqn:E.
    { unfold loop_body in R. rewrite E in R. discriminate. }
    apply loop_body_ok in R
      as [(Hv & Hf & _ & t1 & t2 & t3 & x & y & z & Es & E1 & E2 & E3 & _)
         |[(Hf & Hv & _ & face & Hface & _)|(Hv & Hf & _)]];
      unfold is_record in Hv, Hf; rewrite E in Hv, Hf;
      rewrite Hv; try rewrite Hf.
    + rewrite E in Es. rewrite Es. cbn [filter]. rewrite E1, E2, E3.
      reflexivity.
    + rewrite E in Hface. apply comprehension_index in Hface.
      clear - Hface. induction Hface as [|t i ts js (n & Hn & _) _ IH];
        constructor; [congruence | exact IH].
    + exact I.
Qed.

Lemma loop_returns (file : list string) : forall m : mesh,
  Forall (well_formed float_of int_of) file
  <-> exists m', loop float_of int_of m file = Ok m'.
Proof.
  induction file as [|line rest IH]; intros m.
  - split; [intros _; eexists; reflexivity | constructor].
  - cbn [loop]. split.
    + intros Hall. inversion Hall as [|? ? Hline Hrest]; subst.
      apply (loop_body_returns m) in Hline as (m1 & ->). cbn [bind].
      apply IH. exact Hrest.
    + intros (m' & R). apply bind_ok in R as (m1 & B & R). constructor.
      * apply (loop_body_returns m). eauto.
      * apply (IH m1). eauto.
Qed.

(** The reader returns a mesh exactly on the files whose lines are all
    well formed. *)
Lemma read_obj_returns (file : list string) :
  Forall (well_formed float_of int_of) file
  <-> exists m, read_obj float_of int_of file = Ok m.
Proof. apply loop_returns. Qed.

End ReaderFacts.

(** *** Runs on concrete files *)

(** C2, as stated, fails: a file with one face and no vertex is read without
    an exception, and index 0 of its face is not below the number of
    vertices, which is 0. *)
Lemma face_without_vertices :
  read_obj float_dec int_dec (file_lines face_only_obj)
  = Ok {| vertices := []; indices := [[0; 1; 2]%Z] |}
  /\ List.length (records "v" (file_lines face_only_obj)) = 0
  /\ ~ (0 <= 0 < Z.of_nat 0)%Z.
Proof.
  split; [vm_compute; reflexivity|]. split; [reflexivity | lia].
Qed.

Lemma read_obj_counts_witness :
  exists m : @mesh float,
    read_obj float_dec int_dec (file_lines triangle_obj) = Ok m
    /\ List.length (vertices m) = 3
    /\ List.length (indices m) = 1.
Proof.
  assert (R : read_obj float_dec int_dec (file_lines triangle_obj)
              = Ok {| vertices := [[-0; 0; 0]; [-1; 0; 0]; [-0; 1; 0]]%float;
                      indices := [[0; 1; 2]%Z] |})
    by (vm_compute; reflexivity).
  eexists. split; [exact R|].
  destruct (read_obj_counts _ _ _ R) as (Hv & Hi & _).
  split; [exact Hv | exact Hi].
Defined.

(** C3, as stated, fails for faces: a face line with two indices is read
    without an exception and gives a face of two indices. *)
Lemma short_face_is_read :
  split short_face_obj = ["f"; "1"; "2"]%string
  /\ read_obj float_dec int_dec (file_lines short_face_obj)
     = Ok {| vertices := []; indices := [[0; 1]%Z] |}.
Proof.
  split; vm_compute; reflexivity.
Qed.

Lemma short_records_witness :
  (loop_body float_dec int_dec empty_mesh short_vertex_obj = Raise IndexError
   \/ loop_body float_dec int_dec empty_mesh short_vertex_obj
      = Raise ValueError)
  /\ raises (read_obj float_dec int_dec [short_vertex_obj]).
Proof.
  refine (proj1 (short_records float_dec int_dec [short_vertex_obj]
                   short_vertex_obj ["1"; "2"]%string empty_mesh _) _ _).
  - left. reflexivity.
  - vm_compute. reflexivity.
  - vm_compute. lia.
Defined.

(** C4 at a file with an empty line: the line has no token, its turn raises
    [IndexError] whatever was read before, and the file is not read to its
    end. *)
Theorem blank_line_raises :
  split nl = []
  /\ (forall m : @mesh float,
        loop_body float_dec int_dec m nl = Raise IndexError)
  /\ read_obj float_dec int_dec (file_lines blank_line_obj)
     = Raise IndexError.
Proof.
  split; [reflexivity|]. split.
  - intros m. apply blank_line. reflexivity.
  - vm_compute. reflexivity.
Qed.

(** A comment line, in contrast, is passed over. *)
Example comment_line_skipped (m : @mesh float) :
  loop_body float_dec int_dec m ("# made by hand" ++ nl)%string = Ok m.
Proof.
  eapply other_record; [vm_compute; reflexivity | discriminate..].
Qed.

(** C6, as stated, fails: on the triangle of the specification the first
    coordinate of every vertex comes out with its sign changed; the second
    vertex is [(-1, 0, 0)], which is not [(1, 0, 0)]. *)
Lemma triangle_is_mirrored :
  read_obj float_dec int_dec (file_lines triangle_obj)
  = Ok {| vertices := [[-0; 0; 0]; [-1; 0; 0]; [-0; 1; 0]]%float;
          indices := [[0; 1; 2]%Z] |}
  /\ floats_eqb [-1; 0; 0]%float [1; 0; 0]%float = false.
Proof.
  split; vm_compute; reflexivity.
Qed.

(** C6, as the script has it.  For a line of tag [v] with three numeric
    tokens after the tag, the turn appends one vertex: the number of the
    first token with its sign changed, then the numbers of the second and
    third tokens as they are; no other transform can be chosen.  The
    triangle of the specification is read to the vertices [(-0, 0, 0)],
    [(-1, 0, 0)], [(-0, 1, 0)] and the face [(0, 1, 2)]. *)
Theorem vertex_record :
  (forall (A : Type) (N : Num A) (float_of : string -> option A)
          (int_of : string -> option Z) (m : mesh) (line t1 t2 t3 : string)
          (more : list string) (x y z : A),
      split line = "v"%string :: t1 :: t2 :: t3 :: more ->
      float_of t1 = Some x -> float_of t2 = Some y -> float_of t3 = Some z ->
      loop_body float_of int_of m line
      = Ok {| vertices := vertices m ++ [[nneg x; y; z]];
              indices := indices m |})
  /\ read_obj float_dec int_dec (file_lines triangle_obj)
     = Ok {| vertices := [[-0; 0; 0]; [-1; 0; 0]; [-0; 1; 0]]%float;
             indices := [[0; 1; 2]%Z] |}.
Proof.
  split.
  - intros A N float_of int_of m line t1 t2 t3 more x y z.
    apply vertex_line.
  - vm_compute. reflexivity.
Qed.

Lemma vertex_record_witness :
  loop_body float_dec int_dec empty_mesh ("v 1 0 0" ++ nl)%string
  = Ok {| vertices := [[-1; 0; 0]%float]; indices := [] |}.
Proof.
  refine (proj1 vertex_record float float_Num float_dec int_dec empty_mesh
            ("v 1 0 0" ++ nl)%string "1"%string "0"%string "0"%string []
            1%float 0%float 0%float _ _ _ _); vm_compute; reflexivity.
Defined.

(** ** The camera *)

(** C5.  With the identity quaternion the two local axes come back exactly
    as they are, [(0, 0, -1)] and [(0, 1, 0)].  The transform of the script
    is [xzy_to_xyz], applied to the position and to both axes: the origin is
    the transformed position, [look_at] is the origin plus the transformed
    [(0, 0, -1)], which is also the transformed sum of the position and
    [(0, 0, -1)], and [up] is the transformed [(0, 1, 0)], exactly.  In
    particular, at position [(0, 0, 0)] and lens angle [radians 45], the
    vectors handed to the transform are [(0, 0, 0)], [(0, 0, -1)] and
    [(0, 1, 0)]: the camera written has their images as origin, [look_at]
    and [up] (a transform that is the identity leaves them as they are),
    and its field of view is [45]. *)
Theorem camera_at_identity (px py pz angle : float) (width height : Z)
  (world : nodes) :
  rotate_quat [0; 0; -1]%float [1; 0; 0; 0]%float = Ok [0; 0; -1]%float
  /\ rotate_quat [0; 1; 0]%float [1; 0; 0; 0]%float = Ok [0; 1; 0]%float
  /\ (exists position forward upward,
        xzy_to_xyz [px; py; pz] = Ok position
        /\ xzy_to_xyz [0; 0; -1]%float = Ok forward
        /\ xzy_to_xyz [0; 1; 0]%float = Ok upward
        /\ camera_dict (identity_scene [px; py; pz] angle width height world)
           = Ok {| film_dimensions := [width; height];
                   origin := position;
                   look_at := add_vec position forward;
                   up := upward;
                   field_of_view := degrees angle |}
        /\ xzy_to_xyz (add_vec [px; py; pz] [0; 0; -1]%float)
           = Ok (add_vec position forward))
  /\ add_vec [0; 0; 0]%float [0; 0; -1]%float = [0; 0; -1]%float
  /\ degrees (radians 45) = 45%float
  /\ (exists cam,
        camera_dict (identity_scene [0; 0; 0]%float (radians 45) width height
                       world) = Ok cam
        /\ film_dimensions cam = [width; height]
        /\ xzy_to_xyz [0; 0; 0]%float = Ok (origin cam)
        /\ xzy_to_xyz [0; 0; -1]%float = Ok (look_at cam)
        /\ xzy_to_xyz [0; 1; 0]%float = Ok (up cam)
        /\ field_of_view cam = 45%float).
Proof.
  split; [vm_compute; reflexivity|]. split; [vm_compute; reflexivity|].
  split.
  { exists [px; pz; py], [0; -1; 0]%float, [0; 0; 1]%float.
    repeat split; vm_compute; reflexivity. }
  split; [vm_compute; reflexivity|]. split; [vm_compute; reflexivity|].
  eexists. split; [vm_compute; reflexivity|].
  repeat split; vm_compute; reflexivity.
Qed.

(** ** The default colours *)

(** C9, as the script has it.  Without a node named [Background] the
    environment is [(0.8, 0.8, 0.8)]; without a material, or without a node
    named [Diffuse BSDF] in the first material, the colour of a mesh is
    [(0.5, 0.5, 0.5)]; neither case raises. *)
Theorem default_colors :
  (forall world : nodes,
     contains "Background" world = false ->
     environment world
     = Ok [0x1.999999999999ap-1; 0x1.999999999999ap-1;
           0x1.999999999999ap-1]%float)
  /\ color [] = Ok [0.5; 0.5; 0.5]%float
  /\ (forall (material0 : nodes) (others : list nodes),
        contains "Diffuse BSDF" material0 = false ->
        color (material0 :: others) = Ok [0.5; 0.5; 0.5]%float).
Proof.
  split; [|split].
  - intros world E. unfold environment. rewrite E. reflexivity.
  - reflexivity.
  - intros material0 others E. unfold color. rewrite E. reflexivity.
Qed.

Lemma default_colors_witness :
  environment [("World Output"%string, {| inputs := [] |})]
  = Ok [0x1.999999999999ap-1; 0x1.999999999999ap-1;
        0x1.999999999999ap-1]%float
  /\ color [[("Glossy BSDF"%string, {| inputs := [] |})]]
     = Ok [0.5; 0.5; 0.5]%float.
Proof.
  destruct default_colors as (He & _ & Hc).
  split; [apply He | apply Hc]; reflexivity.
Defined.

(** C9, as stated, fails for the background: the environment of a world
    without a [Background] node is [(0.8, 0.8, 0.8)], which is not the
    mid-gray [(0.5, 0.5, 0.5)]. *)
Lemma default_environment_not_mid_gray :
  environment []
  = Ok [0x1.999999999999ap-1; 0x1.999999999999ap-1;
        0x1.999999999999ap-1]%float
  /\ floats_eqb [0x1.999999999999ap-1; 0x1.999999999999ap-1;
                 0x1.999999999999ap-1]%float [0.5; 0.5; 0.5]%float = false.
Proof.
  split; vm_compute; reflexivity.
Qed.

(** ** The coordinate transforms *)

(** Changing the sign of a float twice gives the float back, bit for bit. *)
Lemma float_opp_involutive (x : float) : (- - x)%float = x.
Proof.
  apply Prim2SF_inj. rewrite !opp_spec.
  destruct (Prim2SF x) as [s|s| |s m e]; cbn; rewrite ?negb_involutive;
    reflexivity.
Qed.

Lemma within_1e9_refl (v : list R) : Forall2 within_1e9 v v.
Proof.
  induction v as [|a v IH]; constructor; [|exact IH].
  unfold within_1e9. replace (a - a)%R with 0%R by ring.
  rewrite Rabs_R0. lra.
Qed.

(** C10.  Each transform of the repository is its own inverse: swapping the
    second and third components twice, and changing the sign of the first
    component twice, give the vector back exactly, over every kind of number
    whose sign change undoes itself, and over floats in particular; over the
    reals the result is then within [1e-9] of the vector, component by
    component. *)
Theorem transforms_self_inverse :
  (forall (A : Type) (N : Num A),
     (forall a : A, nneg (nneg a) = a) ->
     forall x y z : A,
       twice xzy_to_xyz [x; y; z] = Ok [x; y; z]
       /\ twice negate_x [x; y; z] = Ok [x; y; z])
  /\ (forall x y z : float,
        twice xzy_to_xyz [x; y; z] = Ok [x; y; z]
        /\ twice negate_x [x; y; z] = Ok [x; y; z])
  /\ (forall x y z : R,
        exists v w,
          twice xzy_to_xyz [x; y; z] = Ok v
          /\ twice negate_x [x; y; z] = Ok w
          /\ Forall2 within_1e9 v [x; y; z]
          /\ Forall2 within_1e9 w [x; y; z]).
Proof.
  assert (G : forall (A : Type) (N : Num A),
             (forall a : A, nneg (nneg a) = a) ->
             forall x y z : A,
               twice xzy_to_xyz [x; y; z] = Ok [x; y; z]
               /\ twice negate_x [x; y; z] = Ok [x; y; z]).
  { intros A N Hneg x y z. split; [reflexivity|].
    unfold twice, negate_x. cbn. rewrite Hneg. reflexivity. }
  split; [exact G|]. split.
  - intros x y z. apply (G float float_Num float_opp_involutive).
  - intros x y z.
    destruct (G R R_Num Ropp_involutive x y z) as [E1 E2].
    exists [x; y; z], [x; y; z].
    repeat split; try assumption; apply within_1e9_refl.
Qed.

Lemma transforms_self_inverse_witness :
  twice xzy_to_xyz [1; 2; 3]%Z = Ok [1; 2; 3]%Z
  /\ twice negate_x [1; 2; 3]%Z = Ok [1; 2; 3]%Z.
Proof.
  exact (proj1 transforms_self_inverse Z Z_Num Z.opp_involutive 1 2 3)%Z.
Defined.

(** ** The compaction of short vectors *)

(** *** Characters *)

Lemma is_digit_not (c d : ascii) :
  is_digit d = false -> is_digit c = true -> Ascii.eqb c d = false.
Proof.
  intros Hd Hc. apply Ascii.eqb_neq. intros ->. congruence.
Qed.

Lemma num_char_digit (c : ascii) : is_digit c = true -> num_char c = true.
Proof.
  intros E. unfold num_char. rewrite E. reflexivity.
Qed.

(** *** Greedy repetition, when the continuation refuses the repeated
    characters: the longest run is the only one that can go on. *)

Lemma star_greedy {X : Type} (a : atom) (k : text -> option X) :
  (forall c x, atom_matches a c = true -> k (c :: x) = None) ->
  forall s, star a s k = k (drop_while (atom_matches a) s).
Proof.
  intros Hk s. induction s as [|c s IH]; [reflexivity|].
  cbn [star drop_while]. destruct (atom_matches a c) eqn:E; [|reflexivity].
  rewrite IH. destruct (k (drop_while (atom_matches a) s)) eqn:K;
    [reflexivity|]. apply Hk. exact E.
Qed.

Lemma take_drop_while (p : ascii -> bool) (s : text) :
  s = take_while p s ++ drop_while p s.
Proof.
  induction s as [|c s IH]; [reflexivity|]. cbn.
  destruct (p c); [cbn; congruence | reflexivity].
Qed.

Lemma take_while_all (p : ascii -> bool) (s : text) :
  forallb p (take_while p s) = true.
Proof.
  induction s as [|c s IH]; [reflexivity|]. cbn.
  destruct (p c) eqn:E; [cbn; rewrite E; exact IH | reflexivity].
Qed.

(** A run followed by a character outside it is read as it stands. *)
Lemma take_while_run (p : ascii -> bool) (run x : text) :
  forallb p run = true ->
  (match x with c :: _ => p c = false | [] => True end) ->
  take_while p (run ++ x) = run /\ drop_while p (run ++ x) = x.
Proof.
  intros Hrun Hx. induction run as [|c run IH]; cbn.
  - destruct x as [|c x]; [split; reflexivity|]. cbn. rewrite Hx.
    split; reflexivity.
  - cbn in Hrun. apply andb_prop in Hrun as [-> Hrun].
    destruct (IH Hrun) as [-> ->]. split; reflexivity.
Qed.

(** *** The numeral pattern read without going back *)

Lemma rmatch_Cat {X : Type} (r1 r2 : regex) (s : text) (caps : captures)
  (k : text -> captures -> option X) :
  rmatch (Cat r1 r2) s caps k
  = rmatch r1 s caps (fun s' caps' => rmatch r2 s' caps' k).
Proof. reflexivity. Qed.

Lemma rmatch_Opt {X : Type} (r : regex) (s : text) (caps : captures)
  (k : text -> captures -> option X) :
  rmatch (Opt r) s caps k
  = match rmatch r s caps k with
    | Some x => Some x
    | None => k s caps
    end.
Proof. reflexivity. Qed.

Lemma rmatch_lit {X : Type} (c : ascii) (s : text) (caps : captures)
  (k : text -> captures -> option X) :
  rmatch (lit c) s caps k
  = match s with
    | d :: s' => if Ascii.eqb d c then k s' caps else None
    | [] => None
    end.
Proof. reflexivity. Qed.

Lemma read_digits_cons (s : text) :
  read_digits s
  = match s with
    | c :: s' =>
        if is_digit c
        then Some (c :: take_while is_digit s', drop_while is_digit s')
        else None
    | [] => None
    end.
Proof.
  unfold read_digits. destruct s as [|c s]; [reflexivity|].
  cbn [take_while drop_while]. destruct (is_digit c); reflexivity.
Qed.

Lemma number_cps {X : Type} (k : text -> captures -> option X) :
  refuses_numeral k ->
  forall s caps,
    rmatch number_pattern s caps k
    = match read_number s with
      | Some (_, rest) => k rest caps
      | None => None
      end.
Proof.
  intros Hk.
  assert (Hdigit : forall c x caps, is_digit c = true -> k (c :: x) caps = None).
  { intros c x caps E. apply Hk. rewrite E. reflexivity. }
  assert (Hpoint : forall c x caps, Ascii.eqb c "." = true -> k (c :: x) caps = None).
  { intros c x caps E. apply Hk. rewrite E. apply orb_true_r. }
  (* the optional fraction and what follows *)
  set (frac := Cat (Opt (seq [lit "."; Plus (Range "0" "9")])) Eps).
  assert (Hfrac : forall s caps,
    rmatch frac s caps k
    = match s with
      | c :: s3 =>
          if Ascii.eqb c "." then
            match read_digits s3 with
            | Some (_, s4) => k s4 caps
            | None => None
            end
          else k s caps
      | [] => k [] caps
      end).
  { intros s caps. destruct s as [|c s3]; [reflexivity|].
    cbn [frac rmatch seq lit].
    change (atom_matches (Chr ".") c) with (Ascii.eqb c ".").
    change (atom_matches (Range "0" "9")) with is_digit.
    destruct (Ascii.eqb c ".") eqn:Ec; [|reflexivity].
    rewrite read_digits_cons. destruct s3 as [|d s3'].
    - apply Hpoint. exact Ec.
    - destruct (is_digit d) eqn:Ed.
      + rewrite (star_greedy (Range "0" "9") (fun s'' => k s'' caps))
          by (intros; apply Hdigit; assumption).
        change (atom_matches (Range "0" "9")) with is_digit.
        destruct (k (drop_while is_digit s3') caps) eqn:K; [reflexivity|].
        apply Hpoint. exact Ec.
      + apply Hpoint. exact Ec. }
  assert (Hfrac_digit : forall c x caps,
            is_digit c = true -> rmatch frac (c :: x) caps k = None).
  { intros c x caps E. rewrite Hfrac.
    rewrite (@is_digit_not c "."%char) by (reflexivity || exact E).
    apply Hdigit. exact E. }
  (* the digits, the fraction and what follows *)
  assert (Hbody : forall s caps,
    rmatch (Cat (Plus (Range "0" "9")) frac) s caps k
    = match read_digits s with
      | Some (_, s2) => rmatch frac s2 caps k
      | None => None
      end).
  { intros s caps. rewrite read_digits_cons.
    destruct s as [|c s']; [reflexivity|]. cbn [rmatch].
    change (atom_matches (Range "0" "9")) with is_digit.
    destruct (is_digit c) eqn:Ed; [|reflexivity].
    rewrite (star_greedy (Range "0" "9")
               (fun s'' => rmatch frac s'' caps k))
      by (intros; apply Hfrac_digit; assumption).
    reflexivity. }
  intros s caps.
  change number_pattern
    with (Cat (Opt (lit "-")) (Cat (Plus (Range "0" "9")) frac)).
  rewrite rmatch_Cat, rmatch_Opt, rmatch_lit.
  unfold read_number, read_sign.
  destruct s as [|c s'].
  - rewrite Hbody. reflexivity.
  - destruct (Ascii.eqb c "-") eqn:Ec.
    + rewrite !Hbody.
      assert (Hminus : read_digits (c :: s') = None).
      { rewrite read_digits_cons.
        apply Ascii.eqb_eq in Ec. subst c. reflexivity. }
      rewrite Hminus.
      destruct (read_digits s') as [[ds s2]|]; [|reflexivity].
      rewrite Hfrac.
      destruct s2 as [|d s3].
      * destruct (k [] caps); reflexivity.
      * destruct (Ascii.eqb d ".") eqn:Ed.
        -- destruct (read_digits s3) as [[fs s4]|];
             [destruct (k s4 caps); reflexivity|].
           symmetry. apply Hpoint. exact Ed.
        -- destruct (k (d :: s3) caps); reflexivity.
    + rewrite Hbody.
      destruct (read_digits (c :: s')) as [[ds s2]|]; [|reflexivity].
      rewrite Hfrac.
      destruct s2 as [|d s3]; [reflexivity|].
      destruct (Ascii.eqb d ".") eqn:Ed.
      * destruct (read_digits s3) as [[fs s4]|]; [reflexivity|].
        symmetry. apply Hpoint. exact Ed.
      * reflexivity.
Qed.

Lemma forallb_digit_head (ds x : text) :
  ds <> [] -> forallb is_digit ds = true ->
  exists c y, ds ++ x = c :: y /\ is_digit c = true.
Proof.
  destruct ds as [|c ds]; [contradiction|]. cbn. intros _ E.
  apply andb_prop in E as [E _]. eauto.
Qed.

Lemma read_digits_sound (s ds rest : text) :
  read_digits s = Some (ds, rest) ->
  s = ds ++ rest /\ ds <> [] /\ forallb is_digit ds = true.
Proof.
  unfold read_digits. intros E.
  pose proof (take_drop_while is_digit s) as Hs.
  pose proof (take_while_all is_digit s) as Hall.
  destruct (take_while is_digit s) as [|c run]; [discriminate|].
  injection E as <- <-. repeat split; [exact Hs | discriminate | exact Hall].
Qed.

Lemma read_digits_run (ds x : text) :
  ds <> [] -> forallb is_digit ds = true ->
  (match x with c :: _ => is_digit c = false | [] => True end) ->
  read_digits (ds ++ x) = Some (ds, x).
Proof.
  intros Hne Hall Hx. unfold read_digits.
  destruct (take_while_run is_digit ds x Hall Hx) as [-> ->].
  destruct ds; [contradiction | reflexivity].
Qed.

Lemma read_number_sound (s n rest : text) :
  read_number s = Some (n, rest) -> s = n ++ rest /\ numeral n.
Proof.
  unfold read_number.
  assert (Hsign : exists sign s1,
            read_sign s = (sign, s1)
            /\ s = sign ++ s1 /\ (sign = [] \/ sign = ["-"%char])).
  { unfold read_sign. destruct s as [|c s']; [exists [], []; auto|].
    destruct (Ascii.eqb c "-") eqn:Ec.
    - apply Ascii.eqb_eq in Ec. subst c. exists ["-"%char], s'.
      repeat split; auto.
    - exists [], (c :: s'). repeat split; auto. }
  destruct Hsign as (sign & s1 & -> & -> & Hsign).
  destruct (read_digits s1) as [[ds s2]|] eqn:Hds; [|discriminate].
  apply read_digits_sound in Hds as (-> & Hne & Hall).
  assert (Hplain : s2 = s2 -> sign ++ ds ++ s2 = (sign ++ ds) ++ s2
                               /\ numeral (sign ++ ds)).
  { intros _. split; [now rewrite app_assoc|].
    exists sign, ds, []. rewrite app_nil_r. repeat split; auto. }
  destruct s2 as [|c s3].
  - intros [= <- <-]. now apply Hplain.
  - destruct (Ascii.eqb c ".") eqn:Ec.
    + destruct (read_digits s3) as [[fs s4]|] eqn:Hfs.
      * apply read_digits_sound in Hfs as (-> & Hnf & Hallf).
        apply Ascii.eqb_eq in Ec. subst c. intros [= <- <-]. split.
        -- rewrite <- !app_assoc. reflexivity.
        -- exists sign, ds, ("."%char :: fs). repeat split; auto.
           right. exists fs. auto.
      * intros [= <- <-]. now apply Hplain.
    + intros [= <- <-]. now apply Hplain.
Qed.

Lemma read_number_complete (n x : text) :
  numeral n -> ends_numeral x -> read_number (n ++ x) = Some (n, x).
Proof.
  intros (sign & ds & frac & -> & Hsign & Hne & Hall & Hfrac) Hx.
  unfold read_number.
  assert (Hx' : match x with c :: _ => is_digit c = false | [] => True end).
  { destruct x as [|c x]; [exact I|]. cbn in Hx.
    apply orb_false_elim in Hx as [Hx _]. exact Hx. }
  assert (E : read_sign ((sign ++ ds ++ frac) ++ x)
              = (sign, ds ++ frac ++ x)).
  { unfold read_sign. destruct Hsign as [-> | ->].
    - cbn [app]. rewrite <- app_assoc.
      destruct (forallb_digit_head (frac ++ x) Hne Hall) as (c & y & E & Hc).
      rewrite E.
      rewrite (@is_digit_not c "-"%char) by (reflexivity || exact Hc).
      reflexivity.
    - cbn. rewrite <- app_assoc. reflexivity. }
  rewrite E. clear E.
  destruct Hfrac as [-> | (fs & -> & Hnf & Hallf)].
  - cbn [app]. rewrite (@read_digits_run ds x Hne Hall Hx').
    rewrite app_nil_r. destruct x as [|c x]; [reflexivity|].
    cbn in Hx. apply orb_false_elim in Hx as [_ ->]. reflexivity.
  - rewrite (@read_digits_run ds (("."%char :: fs) ++ x) Hne Hall)
      by reflexivity.
    cbn [app]. cbn [Ascii.eqb Bool.eqb].
    rewrite (@read_digits_run fs x Hnf Hallf Hx'). reflexivity.
Qed.

Lemma group_number_cps {X : Type} (i : nat)
  (k : text -> captures -> option X) :
  refuses_numeral k ->
  forall s caps,
    rmatch (Group i number_pattern) s caps k
    = match read_number s with
      | Some (n, rest) => k rest ((i, n) :: caps)
      | None => None
      end.
Proof.
  intros Hk s caps. cbn [rmatch]. rewrite number_cps.
  - destruct (read_number s) as [[n rest]|] eqn:E; [|reflexivity].
    apply read_number_sound in E as [-> _].
    rewrite length_app, Nat.add_sub, firstn_app, Nat.sub_diag, firstn_all.
    cbn. rewrite app_nil_r. reflexivity.
  - intros c x caps' Hc. apply Hk. exact Hc.
Qed.

Lemma spaces_cps {X : Type} (r : regex) (k : text -> captures -> option X) :
  (forall x caps, rmatch r (" "%char :: x) caps k = None) ->
  forall s caps,
    rmatch (Cat (Star (Chr " ")) r) s caps k
    = rmatch r (drop_while is_space s) caps k.
Proof.
  intros Hr s caps. rewrite rmatch_Cat. cbn [rmatch].
  rewrite (star_greedy (Chr " ") (fun s' => rmatch r s' caps k)).
  - reflexivity.
  - intros c x E. apply Ascii.eqb_eq in E. subst c. apply Hr.
Qed.

Lemma lit_refuses_numeral {X : Type} (c0 : ascii) (r : regex)
  (k : text -> captures -> option X) :
  (is_digit c0 || Ascii.eqb c0 ".")%bool = false ->
  refuses_numeral (fun s caps => rmatch (Cat (lit c0) r) s caps k).
Proof.
  intros H0 c x caps Hc. rewrite rmatch_Cat, rmatch_lit.
  destruct (Ascii.eqb c c0) eqn:E; [|reflexivity].
  apply Ascii.eqb_eq in E. subst c. congruence.
Qed.

(** An element line: its indentation and its numeral, then [r]. *)
Lemma elem_cps {X : Type} (i : nat) (r : regex)
  (k : text -> captures -> option X) :
  refuses_numeral (fun s caps => rmatch r s caps k) ->
  forall s caps,
    rmatch (Cat (Star (Chr " ")) (Cat (Group i number_pattern) r)) s caps k
    = match read_number (drop_while is_space s) with
      | Some (n, rest) => rmatch r rest ((i, n) :: caps) k
      | None => None
      end.
Proof.
  intros Hr s caps.
  assert (G : forall s caps,
            rmatch (Cat (Group i number_pattern) r) s caps k
            = match read_number s with
              | Some (n, rest) => rmatch r rest ((i, n) :: caps) k
              | None => None
              end).
  { intros s0 caps0. rewrite rmatch_Cat.
    apply (@group_number_cps _ i (fun s' caps' => rmatch r s' caps' k) Hr). }
  rewrite spaces_cps; [apply G|].
  intros x caps0. rewrite G. reflexivity.
Qed.

Lemma closing_cps (r : text) (caps : captures) :
  rmatch closing r caps (fun s' caps' => Some (caps', s'))
  = match drop_while is_space r with
    | c :: rest => if Ascii.eqb c "]" then Some (caps, rest) else None
    | [] => None
    end.
Proof.
  unfold closing. cbn [seq]. rewrite spaces_cps; [reflexivity|].
  reflexivity.
Qed.

Lemma elems_cps (k : nat) : forall (i : nat) (s : text) (caps : captures),
  rmatch (elems_pattern k i) s caps (fun s' caps' => Some (caps', s'))
  = match read_elems k i s caps with
    | Some (caps', r) =>
        rmatch closing r caps' (fun s' caps' => Some (caps', s'))
    | None => None
    end.
Proof.
  induction k as [|k IH]; intros i s caps; cbn [elems_pattern read_elems].
  - rewrite elem_cps by (apply lit_refuses_numeral; reflexivity).
    destruct (read_number (drop_while is_space s)) as [[n rest]|];
      [|reflexivity].
    rewrite rmatch_Cat, rmatch_lit. destruct rest as [|c r]; [reflexivity|].
    destruct (Ascii.eqb c LF); reflexivity.
  - rewrite elem_cps by (apply lit_refuses_numeral; reflexivity).
    destruct (read_number (drop_while is_space s)) as [[n rest]|];
      [|reflexivity].
    destruct rest as [|c1 [|c2 r]]; rewrite rmatch_Cat, rmatch_lit;
      cbv beta iota.
    + reflexivity.
    + destruct (Ascii.eqb c1 ",");
        [rewrite rmatch_Cat, rmatch_lit|]; reflexivity.
    + destruct (Ascii.eqb c1 ","); [|reflexivity].
      rewrite rmatch_Cat, rmatch_lit. cbv beta iota. cbn [andb].
      destruct (Ascii.eqb c2 LF); [apply IH | reflexivity].
Qed.

(** On the patterns of the script, the backtracking matcher finds what the
    reader reads. *)
Lemma vector_cps (k : nat) (s : text) :
  match_at (Cat (lit "[") (Cat (lit LF) (elems_pattern k 1))) s
  = read_vector k s.
Proof.
  unfold match_at, read_vector. rewrite rmatch_Cat, rmatch_lit.
  destruct s as [|c1 s]; [reflexivity|].
  destruct (Ascii.eqb c1 "["); [|destruct s; reflexivity]. cbn [andb].
  rewrite rmatch_Cat, rmatch_lit. destruct s as [|c2 s]; [reflexivity|].
  destruct (Ascii.eqb c2 LF); [|reflexivity].
  rewrite elems_cps. destruct (read_elems k 1 s []) as [[caps r]|];
    [|reflexivity].
  apply closing_cps.
Qed.

Lemma double_pattern_reads (s : text) :
  match_at double_pattern s = read_vector 1 s.
Proof. exact (vector_cps 1 s). Qed.

Lemma triple_pattern_reads (s : text) :
  match_at triple_pattern s = read_vector 2 s.
Proof. exact (vector_cps 2 s). Qed.

(** *** Numerals, spaces and brackets *)

Lemma numeral_chars (n : text) : numeral n -> forallb num_char n = true.
Proof.
  intros (sign & ds & frac & -> & Hsign & _ & Hall & Hfrac).
  assert (D : forall l, forallb is_digit l = true -> forallb num_char l = true).
  { intros l E. rewrite forallb_forall in *. intros c Hc.
    apply num_char_digit. apply E. exact Hc. }
  rewrite !forallb_app. rewrite (D ds Hall).
  destruct Hsign as [-> | ->]; destruct Hfrac as [-> | (fs & -> & _ & Hf)];
    cbn; rewrite ?(D fs Hf); reflexivity.
Qed.

Lemma numeral_head (n : text) :
  numeral n -> exists c n', n = c :: n' /\ num_char c = true.
Proof.
  intros Hn. pose proof (numeral_chars Hn) as Hc.
  destruct Hn as (sign & ds & frac & -> & Hsign & Hne & _ & _).
  destruct sign as [|c sign]; [destruct ds as [|c ds]; [contradiction|]|];
    cbn in *; apply andb_prop in Hc as [Hc _]; eauto.
Qed.

Lemma bracket_free_app (a b : text) :
  bracket_free (a ++ b) <-> bracket_free a /\ bracket_free b.
Proof.
  unfold bracket_free. rewrite in_app_iff. tauto.
Qed.

Lemma bracket_free_cons (c : ascii) (s : text) :
  bracket_free (c :: s) <-> c <> "["%char /\ bracket_free s.
Proof.
  unfold bracket_free. cbn. intuition congruence.
Qed.

Lemma bracket_free_nil : bracket_free [].
Proof. intros []. Qed.

Lemma bracket_free_spaces (a : nat) : bracket_free (spaces a).
Proof.
  intros Hin. apply repeat_spec in Hin. discriminate.
Qed.

Lemma bracket_free_chars (p : ascii -> bool) (s : text) :
  p "["%char = false -> forallb p s = true -> bracket_free s.
Proof.
  intros Hp Hs Hin. rewrite forallb_forall in Hs. apply Hs in Hin. congruence.
Qed.

Lemma bracket_free_numeral (n : text) : numeral n -> bracket_free n.
Proof.
  intros Hn. apply (bracket_free_chars num_char); [reflexivity|].
  apply numeral_chars. exact Hn.
Qed.

Lemma spaces_all (a : nat) : forallb is_space (spaces a) = true.
Proof.
  induction a as [|a IH]; [reflexivity | exact IH].
Qed.

Lemma all_spaces (l : text) :
  forallb is_space l = true -> l = spaces (List.length l).
Proof.
  induction l as [|c l IH]; [reflexivity|]. cbn [forallb].
  intros E. apply andb_prop in E as [Ec El].
  apply Ascii.eqb_eq in Ec. subst c. cbn. f_equal. apply IH. exact El.
Qed.

Lemma drop_spaces_numeral (a : nat) (n y : text) :
  numeral n -> drop_while is_space (spaces a ++ n ++ y) = n ++ y.
Proof.
  intros Hn. apply take_while_run; [apply spaces_all|].
  destruct (numeral_head Hn) as (c & n' & -> & Hc). cbn [app].
  destruct (is_space c) eqn:E; [|reflexivity].
  apply Ascii.eqb_eq in E. subst c. discriminate.
Qed.

Lemma drop_spaces_bracket (a : nat) (y : text) :
  drop_while is_space (spaces a ++ "]"%char :: y) = "]"%char :: y.
Proof.
  apply take_while_run; [apply spaces_all | reflexivity].
Qed.

(** *** The reader on lists written over several lines *)

Lemma spread_items_cons (a : nat) (n : text) (item : nat * text)
  (more : list (nat * text)) :
  spread_items ((a, n) :: item :: more)
  = spaces a ++ n ++ ","%char :: LF :: spread_items (item :: more).
Proof. reflexivity. Qed.

Lemma read_elems_complete (items : list (nat * text)) :
  forall (i : nat) (caps : captures) (x : text),
    items <> [] -> numerals items ->
    read_elems (List.length items - 1) i (spread_items items ++ LF :: x) caps
    = Some (caps_of i items caps, x).
Proof.
  induction items as [|[a n] items IH]; intros i caps x Hne Hnum;
    [contradiction|].
  inversion Hnum as [|item l Hn Hrest]; subst. cbn [snd] in Hn.
  destruct items as [|item more].
  - cbn [List.length Nat.sub spread_items read_elems caps_of].
    rewrite <- app_assoc, (drop_spaces_numeral a (LF :: x) Hn).
    rewrite (read_number_complete (LF :: x) Hn) by reflexivity.
    reflexivity.
  - rewrite spread_items_cons.
    assert (Hitems : item :: more <> []) by discriminate.
    specialize (IH (S i) ((i, n) :: caps) x Hitems Hrest).
    replace (List.length (item :: more) - 1) with (List.length more) in IH
      by (cbn [List.length]; lia).
    replace (List.length ((a, n) :: item :: more) - 1)
      with (S (List.length more)) by (cbn [List.length]; lia).
    cbn [read_elems caps_of].
    rewrite <- !app_assoc.
    rewrite (drop_spaces_numeral a _ Hn).
    cbn [app].
    rewrite (read_number_complete (","%char :: LF :: _) Hn) by reflexivity.
    cbn [Ascii.eqb Bool.eqb andb].
    change (Ascii.eqb LF LF) with true. cbv iota.
    exact IH.
Qed.

Lemma read_elems_sound (k : nat) :
  forall (i : nat) (s : text) (caps caps' : captures) (x : text),
    read_elems k i s caps = Some (caps', x) ->
    exists items,
      List.length items = S k /\ numerals items
      /\ s = spread_items items ++ LF :: x
      /\ caps' = caps_of i items caps.
Proof.
  induction k as [|k IH]; intros i s caps caps' x; cbn [read_elems];
    pose proof (take_drop_while is_space s) as Hs;
    pose proof (all_spaces _ (take_while_all is_space s)) as Ha;
    destruct (read_number (drop_while is_space s)) as [[n rest]|] eqn:Hn;
    try discriminate;
    apply read_number_sound in Hn as [Hn Hnum]; rewrite Hn, Ha in Hs.
  - destruct rest as [|c r]; [discriminate|].
    destruct (Ascii.eqb c LF) eqn:Ec; [|discriminate].
    apply Ascii.eqb_eq in Ec. subst c. intros [= <- <-].
    exists [(List.length (take_while is_space s), n)].
    repeat split.
    + constructor; [exact Hnum | constructor].
    + cbn [spread_items]. rewrite <- app_assoc. exact Hs.
  - destruct rest as [|c1 [|c2 r]]; try discriminate.
    destruct (Ascii.eqb c1 ",") eqn:E1; [|discriminate].
    destruct (Ascii.eqb c2 LF) eqn:E2; [|discriminate].
    apply Ascii.eqb_eq in E1, E2. subst c1 c2. cbn [andb].
    intros R. apply IH in R as (items & Hlen & Hnums & -> & ->).
    exists ((List.length (take_while is_space s), n) :: items).
    repeat split.
    + cbn. congruence.
    + constructor; assumption.
    + destruct items as [|item more]; [discriminate|].
      rewrite spread_items_cons, <- !app_assoc. exact Hs.
Qed.

Lemma read_vector_complete (items : list (nat * text)) (close : nat)
  (rest : text) :
  items <> [] -> numerals items ->
  read_vector (List.length items - 1) (spread items close ++ rest)
  = Some (caps_of 1 items [], rest).
Proof.
  intros Hne Hnum. unfold read_vector, spread. cbn [app].
  change (Ascii.eqb "[" "[" && Ascii.eqb LF LF)%bool with true. cbv iota.
  rewrite <- app_assoc. cbn [app].
  rewrite (read_elems_complete 1 [] _ Hne Hnum).
  rewrite <- app_assoc. cbn [app]. rewrite drop_spaces_bracket.
  reflexivity.
Qed.

Lemma read_vector_sound (k : nat) (s : text) (caps : captures)
  (rest : text) :
  read_vector k s = Some (caps, rest) ->
  exists items close,
    List.length items = S k /\ numerals items
    /\ s = spread items close ++ rest
    /\ caps = caps_of 1 items [].
Proof.
  unfold read_vector. destruct s as [|c1 [|c2 s]]; try discriminate.
  destruct (Ascii.eqb c1 "[") eqn:E1; [|discriminate].
  destruct (Ascii.eqb c2 LF) eqn:E2; [|discriminate].
  apply Ascii.eqb_eq in E1, E2. subst c1 c2. cbn [andb].
  destruct (read_elems k 1 s []) as [[caps0 r]|] eqn:R; [|discriminate].
  apply read_elems_sound in R as (items & Hlen & Hnum & -> & ->).
  pose proof (take_drop_while is_space r) as Hr.
  pose proof (all_spaces _ (take_while_all is_space r)) as Ha.
  destruct (drop_while is_space r) as [|c y]; [discriminate|].
  destruct (Ascii.eqb c "]") eqn:E3; [|discriminate].
  apply Ascii.eqb_eq in E3. subst c. intros [= <- <-].
  exists items, (List.length (take_while is_space r)).
  repeat split; [exact Hlen | exact Hnum |].
  unfold spread. rewrite Hr, Ha at 1.
  repeat (progress (cbn [app]; rewrite <- ?app_assoc)). reflexivity.
Qed.

(** *** The scan of [re.sub] on a bracketed pattern *)

Section Scan.
Variable pattern : regex.
Variable repl : list piece.
Hypothesis Hpattern : bracketed pattern repl.

Lemma match_head (s : text) (caps : captures) (rest : text) :
  match_at pattern s = Some (caps, rest) ->
  exists x, s = "["%char :: LF :: x.
Proof.
  intros M. apply Hpattern in M as (w & e & c & -> & _). eauto.
Qed.

Lemma no_match_nil : match_at pattern [] = None.
Proof.
  destruct (match_at pattern []) as [[caps rest]|] eqn:M; [|reflexivity].
  apply match_head in M as (x & E). discriminate.
Qed.

Lemma no_match_other (c : ascii) (s : text) :
  c <> "["%char -> match_at pattern (c :: s) = None.
Proof.
  intros Hc. destruct (match_at pattern (c :: s)) as [[caps rest]|] eqn:M;
    [|reflexivity].
  apply match_head in M as (x & E). congruence.
Qed.

Lemma no_match_second (c : ascii) (s : text) :
  c <> LF -> match_at pattern ("["%char :: c :: s) = None.
Proof.
  intros Hc.
  destruct (match_at pattern ("["%char :: c :: s)) as [[caps rest]|] eqn:M;
    [|reflexivity].
  apply match_head in M as (x & E). congruence.
Qed.

Lemma sub_from_skip (s : text) : forall n,
  sub_from pattern repl n s = sub_from pattern repl 0 (skipn n s).
Proof.
  induction s as [|c s IH]; intros [|n]; try reflexivity.
  cbn [sub_from skipn]. apply IH.
Qed.

Lemma sub_nil : sub pattern repl [] = [].
Proof. reflexivity. Qed.

Lemma sub_copy_one (c : ascii) (s : text) :
  match_at pattern (c :: s) = None ->
  sub pattern repl (c :: s) = c :: sub pattern repl s.
Proof.
  intros M. unfold sub. cbn [sub_from]. rewrite M. reflexivity.
Qed.

Lemma sub_replace (s : text) (caps : captures) (rest : text) :
  match_at pattern s = Some (caps, rest) ->
  sub pattern repl s = expand repl caps ++ sub pattern repl rest.
Proof.
  intros M. destruct (Hpattern _ M) as (w & e & c & -> & _).
  unfold sub. cbn [sub_from]. rewrite M.
  replace (List.length ("["%char :: LF :: w ++ rest) - List.length rest)
    with (S (S (List.length w)))
    by (cbn [List.length]; rewrite length_app; lia).
  rewrite sub_from_skip. cbn [skipn].
  rewrite skipn_app, skipn_all, Nat.sub_diag. reflexivity.
Qed.

(** A stretch without a bracket is copied. *)
Lemma sub_copy (x y : text) :
  bracket_free x ->
  sub pattern repl (x ++ y) = x ++ sub pattern repl y.
Proof.
  induction x as [|c x IH]; intros Hx; [reflexivity|].
  apply bracket_free_cons in Hx as [Hc Hx]. cbn [app].
  rewrite sub_copy_one by (apply no_match_other; exact Hc).
  rewrite IH by exact Hx. reflexivity.
Qed.

(** The result starts, up to its first bracket, as the text does. *)
Lemma sub_keeps_prefix (x : text) : forall t r,
  bracket_free x ->
  sub pattern repl t = x ++ r ->
  exists r', t = x ++ r'.
Proof.
  induction x as [|a x IH]; intros t r Hx E; [exists t; reflexivity|].
  apply bracket_free_cons in Hx as [Ha Hx].
  destruct t as [|c t]; [discriminate|].
  destruct (match_at pattern (c :: t)) as [[caps rest]|] eqn:M.
  - rewrite (@sub_replace _ _ _ M) in E.
    destruct (Hpattern _ M) as (w & e & d & _ & _ & _ & Ex & _).
    rewrite Ex in E. cbn in E. congruence.
  - rewrite (@sub_copy_one _ _ M) in E. injection E as -> E.
    apply IH in E as (r' & ->); [|exact Hx]. exists r'. reflexivity.
Qed.

(** A match cannot run over a bracket: the scan of a text and the scan of
    what starts at one of its brackets do not meet. *)
Lemma sub_at_bracket (y : text) : forall n pre,
  List.length pre <= n ->
  sub pattern repl (pre ++ "["%char :: y)
  = sub pattern repl pre ++ sub pattern repl ("["%char :: y).
Proof.
  induction n as [|n IH]; intros pre Hlen.
  - destruct pre; [reflexivity | cbn in Hlen; lia].
  - destruct pre as [|c pre]; [reflexivity|].
    destruct (match_at pattern ((c :: pre) ++ "["%char :: y))
      as [[caps rest]|] eqn:M.
    + destruct (Hpattern _ M) as (w & e & d & E & Hw & Hloc & _).
      change ("["%char :: LF :: w ++ rest)
        with (("["%char :: LF :: w) ++ rest) in E.
      apply app_eq_app in E as (l & [[E1 E2] | [E1 E2]]).
      * (* the match ends inside [pre] *)
        assert (Mpre : match_at pattern (c :: pre) = Some (caps, l)).
        { rewrite E1. apply Hloc. }
        rewrite (@sub_replace _ _ _ M), (@sub_replace _ _ _ Mpre), E2, <- app_assoc.
        f_equal. apply IH.
        apply (f_equal (@List.length ascii)) in E1.
        cbn [List.length] in *. rewrite length_app in E1.
        cbn [List.length] in E1. lia.
      * (* or it would hold the bracket after [pre] *)
        destruct l as [|a l].
        -- rewrite app_nil_r in E1. cbn [app] in E2.
           assert (Mpre : match_at pattern (c :: pre) = Some (caps, [])).
           { rewrite <- E1. rewrite <- (app_nil_r w) at 1. apply Hloc. }
           rewrite (@sub_replace _ _ _ M), (@sub_replace _ _ _ Mpre), <- E2, sub_nil.
           rewrite app_nil_r. reflexivity.
        -- exfalso. injection E2 as <- _. injection E1 as _ E1.
           assert (Hin : In "["%char (LF :: w)).
           { rewrite E1. apply in_or_app. right. left. reflexivity. }
           destruct Hin as [Hin | Hin]; [discriminate | exact (Hw Hin)].
    + assert (Mpre : match_at pattern (c :: pre) = None).
      { destruct (match_at pattern (c :: pre)) as [[caps rest]|] eqn:Mpre;
          [|reflexivity].
        destruct (Hpattern _ Mpre) as (w & e & d & E & _ & Hloc & _).
        rewrite E in M. cbn [app] in M.
        rewrite <- app_assoc, Hloc in M. discriminate. }
      cbn [app] in *. rewrite (@sub_copy_one _ _ M), (@sub_copy_one _ _ Mpre).
      cbn [app]. f_equal. apply IH. cbn in Hlen. lia.
Qed.

Lemma quiet_suffix (pre t : text) :
  quiet pattern (pre ++ t) -> quiet pattern t.
Proof.
  intros Q p u E. apply (Q (pre ++ p) u). rewrite E, app_assoc. reflexivity.
Qed.

(** A text where the pattern matches nowhere is left as it is. *)
Lemma sub_quiet (t : text) : quiet pattern t -> sub pattern repl t = t.
Proof.
  induction t as [|c t IH]; intros Q; [reflexivity|].
  rewrite sub_copy_one by (apply (Q [] (c :: t)); reflexivity).
  f_equal. apply IH. apply (quiet_suffix [c]). exact Q.
Qed.

End Scan.

(** *** The two patterns of the script are bracketed *)

Lemma spread_items_free (items : list (nat * text)) :
  numerals items -> bracket_free (spread_items items).
Proof.
  induction 1 as [|[a n] items Hn Hrest IH]; [apply bracket_free_nil|].
  cbn [snd] in Hn. cbn [spread_items]. destruct items as [|item more].
  - apply bracket_free_app. split;
      [apply bracket_free_spaces | apply bracket_free_numeral; exact Hn].
  - apply bracket_free_app. split; [apply bracket_free_spaces|].
    apply bracket_free_app. split; [apply bracket_free_numeral; exact Hn|].
    apply bracket_free_cons. split; [discriminate|].
    apply bracket_free_cons. split; [discriminate | exact IH].
Qed.

Lemma inline_items_free (elems : list text) :
  Forall numeral elems -> bracket_free (inline_items elems).
Proof.
  induction 1 as [|n elems Hn Hrest IH]; [apply bracket_free_nil|].
  cbn [inline_items]. destruct elems as [|n' more].
  - apply bracket_free_numeral. exact Hn.
  - apply bracket_free_app. split; [apply bracket_free_numeral; exact Hn|].
    apply bracket_free_cons. split; [discriminate|].
    apply bracket_free_cons. split; [discriminate | exact IH].
Qed.

Lemma numerals_elems (items : list (nat * text)) :
  numerals items -> Forall numeral (map snd items).
Proof.
  induction 1; constructor; assumption.
Qed.

(** A one-line list starts with a bracket, goes on with the first character
    of its first numeral, and has no other bracket. *)
Lemma inline_form (elems : list text) :
  elems <> [] -> Forall numeral elems ->
  exists c e,
    inline elems = "["%char :: c :: e /\ c <> LF /\ bracket_free (c :: e).
Proof.
  intros Hne Hnum.
  assert (Hfree : bracket_free (inline_items elems ++ ["]"%char])).
  { apply bracket_free_app. split; [apply inline_items_free; exact Hnum|].
    apply bracket_free_cons. split; [discriminate | apply bracket_free_nil]. }
  destruct elems as [|n more]; [contradiction|].
  inversion Hnum as [|? ? Hn _]; subst.
  destruct (numeral_head Hn) as (c & n' & -> & Hc).
  assert (E : exists e, inline_items ((c :: n') :: more) = c :: e).
  { cbn [inline_items]. destruct more; cbn [app]; eauto. }
  destruct E as (e & E). unfold inline. rewrite E in Hfree |- *.
  cbn [app] in Hfree |- *.
  exists c, (e ++ ["]"%char]). repeat split; [|exact Hfree].
  intros ->. discriminate.
Qed.

Lemma bracketed_vector (k : nat) (repl : list piece) :
  (forall items,
     List.length items = S k -> numerals items ->
     expand repl (caps_of 1 items []) = inline (map snd items)) ->
  bracketed (Cat (lit "[") (Cat (lit LF) (elems_pattern k 1))) repl.
Proof.
  intros Hexpand s caps rest M. rewrite vector_cps in M.
  apply read_vector_sound in M as (items & close & Hlen & Hnum & -> & ->).
  assert (Hne : items <> []) by (intros ->; discriminate).
  destruct (@inline_form (map snd items)) as (c & e & E & Hc & He).
  { destruct items; [contradiction | discriminate]. }
  { apply numerals_elems. exact Hnum. }
  exists (spread_items items ++ LF :: spaces close ++ ["]"%char]), e, c.
  split; [reflexivity|]. split; [|split; [|split; [|split]]].
  - apply bracket_free_app. split; [apply spread_items_free; exact Hnum|].
    apply bracket_free_cons. split; [discriminate|].
    apply bracket_free_app. split; [apply bracket_free_spaces|].
    apply bracket_free_cons. split; [discriminate | apply bracket_free_nil].
  - intros rest'. rewrite vector_cps.
    replace k with (List.length items - 1) by lia.
    apply (read_vector_complete close rest' Hne Hnum).
  - rewrite Hexpand by assumption. exact E.
  - exact Hc.
  - exact He.
Qed.

Lemma expand_double (a1 a2 : nat) (n1 n2 : text) :
  expand double_repl (caps_of 1 [(a1, n1); (a2, n2)] []) = inline [n1; n2].
Proof.
  unfold inline. cbn. rewrite <- app_assoc. reflexivity.
Qed.

Lemma expand_triple (a1 a2 a3 : nat) (n1 n2 n3 : text) :
  expand triple_repl (caps_of 1 [(a1, n1); (a2, n2); (a3, n3)] [])
  = inline [n1; n2; n3].
Proof.
  unfold inline. cbn. rewrite <- !app_assoc. cbn. rewrite <- !app_assoc.
  reflexivity.
Qed.

Lemma bracketed_double : bracketed double_pattern double_repl.
Proof.
  apply (@bracketed_vector 1). intros items Hlen _.
  destruct items as [|[a1 n1] [|[a2 n2] [|item more]]]; try discriminate.
  apply expand_double.
Qed.

Lemma bracketed_triple : bracketed triple_pattern triple_repl.
Proof.
  apply (@bracketed_vector 2). intros items Hlen _.
  destruct items as [|[a1 n1] [|[a2 n2] [|[a3 n3] [|item more]]]];
    try discriminate.
  apply expand_triple.
Qed.

(** *** One substitution does not make room for another *)

Section TwoPatterns.
Variables (p q : regex) (repl_p repl_q : list piece).
Hypothesis Hp : bracketed p repl_p.
Hypothesis Hq : bracketed q repl_q.

(** If [q] matches nowhere in [t] where [p] does not match, [q] matches
    nowhere in the result of substituting [p] in [t]. *)
Lemma sub_stays_quiet : forall n t,
  List.length t <= n ->
  (forall pre u, t = pre ++ u ->
                 match_at p u = None -> match_at q u = None) ->
  quiet q (sub p repl_p t).
Proof.
  induction n as [|n IH]; intros t Hlen Hno pre u E.
  { destruct t; [|cbn in Hlen; lia]. rewrite sub_nil in E.
    symmetry in E. apply app_eq_nil in E as [_ ->].
    apply (no_match_nil Hq). }
  destruct t as [|c t].
  { rewrite sub_nil in E. symmetry in E. apply app_eq_nil in E as [_ ->].
    apply (no_match_nil Hq). }
  destruct (match_at q u) as [[caps_q rest_q]|] eqn:Mq; [exfalso|reflexivity].
  destruct (Hq _ Mq) as (wq & eq' & dq & Eu & Hwq & Hlocq & _).
  destruct (match_at p (c :: t)) as [[caps rest]|] eqn:M.
  - (* a replacement is written first *)
    rewrite (sub_replace Hp _ M) in E.
    destruct (Hp _ M) as (w & e & d & Et & _ & _ & Ex & Hd & He).
    assert (Hrest : quiet q (sub p repl_p rest)).
    { apply IH.
      - apply (f_equal (@List.length ascii)) in Et.
        cbn [List.length] in Et. rewrite length_app in Et.
        cbn [List.length] in Hlen. lia.
      - intros pre' u' E'. apply (Hno (("["%char :: LF :: w) ++ pre') u').
        rewrite Et, E', <- app_assoc. reflexivity. }
    apply app_eq_app in E as (l & [[E1 E2] | [E1 E2]]).
    + destruct l as [|a l].
      * cbn [app] in E2. rewrite (Hrest [] u (eq_sym E2)) in Mq. discriminate.
      * rewrite Eu in E2. injection E2 as <- E2.
        rewrite Ex in E1. destruct pre as [|b pre].
        -- injection E1 as E1. rewrite <- E1 in E2. injection E2 as E2 _.
           congruence.
        -- injection E1 as _ E1. apply He. rewrite E1.
           apply in_or_app. right. left. reflexivity.
    + rewrite (Hrest l u E2) in Mq. discriminate.
  - (* a character is copied first *)
    rewrite (@sub_copy_one p repl_p _ _ M) in E. destruct pre as [|b pre].
    + cbn [app] in E. rewrite Eu in E. injection E as -> E.
      assert (Hx : bracket_free (LF :: wq)).
      { apply bracket_free_cons. split; [discriminate | exact Hwq]. }
      destruct (@sub_keeps_prefix p repl_p Hp (LF :: wq) t rest_q Hx)
        as (r' & ->); [exact E|].
      specialize (Hno [] ("["%char :: (LF :: wq) ++ r') eq_refl M).
      cbn [app] in Hno. rewrite Hlocq in Hno. discriminate.
    + injection E as _ E.
      assert (Ht : quiet q (sub p repl_p t)).
      { apply IH; [cbn in Hlen; lia|].
        intros pre' u' E'. apply (Hno (c :: pre') u'). rewrite E'.
        reflexivity. }
      rewrite (Ht pre u E) in Mq. discriminate.
Qed.

End TwoPatterns.

(** C8.  The compaction is idempotent: for every text, the two
    substitutions applied twice give what they give applied once. *)
Theorem compact_idempotent (scene_string : text) :
  compact (compact scene_string) = compact scene_string.
Proof.
  unfold compact.
  set (t1 := sub double_pattern double_repl scene_string).
  set (t2 := sub triple_pattern triple_repl t1).
  assert (Q1 : quiet double_pattern t1).
  { apply (sub_stays_quiet bracketed_double bracketed_double
             (n := List.length scene_string)); [lia|].
    intros pre u _ M. exact M. }
  assert (Q2 : quiet double_pattern t2).
  { apply (sub_stays_quiet bracketed_triple bracketed_double
             (n := List.length t1)); [lia|].
    intros pre u E _. exact (Q1 pre u E). }
  assert (Q3 : quiet triple_pattern t2).
  { apply (sub_stays_quiet bracketed_triple bracketed_triple
             (n := List.length t1)); [lia|].
    intros pre u _ M. exact M. }
  rewrite (@sub_quiet double_pattern double_repl t2 Q2).
  apply (@sub_quiet triple_pattern triple_repl t2 Q3).
Qed.

(** *** Short vectors are collapsed *)

Lemma fullmatch_numeral (n : text) :
  fullmatch number_pattern n = true <-> numeral n.
Proof.
  unfold fullmatch.
  rewrite number_cps by (intros c x caps _; reflexivity).
  split.
  - destruct (read_number n) as [[m rest]|] eqn:E; [|discriminate].
    apply read_number_sound in E as [-> Hm].
    destruct rest; [|discriminate]. rewrite app_nil_r. intros _. exact Hm.
  - intros Hn. rewrite <- (app_nil_r n) at 1.
    rewrite (read_number_complete [] Hn) by exact I. reflexivity.
Qed.

Lemma fullmatch_numerals (items : list (nat * text)) :
  Forall (fun item => fullmatch number_pattern (snd item) = true) items ->
  numerals items.
Proof.
  intros H. eapply Forall_impl; [|exact H].
  intros item. apply fullmatch_numeral.
Qed.

(** A list of three numerals is not a list of two. *)
Lemma double_pattern_on_triple (a1 a2 a3 close : nat) (n1 n2 n3 post : text) :
  numeral n1 -> numeral n2 -> numeral n3 ->
  match_at double_pattern
    (spread [(a1, n1); (a2, n2); (a3, n3)] close ++ post) = None.
Proof.
  intros H1 H2 H3. rewrite double_pattern_reads.
  unfold read_vector, spread. cbn [app].
  change (Ascii.eqb "[" "[" && Ascii.eqb LF LF)%bool with true. cbv iota.
  cbn [spread_items read_elems].
  repeat (progress (cbn [app]; rewrite <- ?app_assoc)).
  rewrite (drop_spaces_numeral a1 _ H1).
  rewrite (read_number_complete (","%char :: LF :: _) H1) by reflexivity.
  cbn [Ascii.eqb Bool.eqb andb].
  change (Ascii.eqb LF LF) with true. cbv iota.
  rewrite (drop_spaces_numeral a2 _ H2).
  rewrite (read_number_complete (","%char :: LF :: _) H2) by reflexivity.
  reflexivity.
Qed.

Lemma spread_form (items : list (nat * text)) (close : nat) :
  numerals items ->
  exists w, spread items close = "["%char :: LF :: w /\ bracket_free w.
Proof.
  intros Hnum. eexists. split; [reflexivity|].
  apply bracket_free_app. split; [apply spread_items_free; exact Hnum|].
  apply bracket_free_cons. split; [discriminate|].
  apply bracket_free_app. split; [apply bracket_free_spaces|].
  apply bracket_free_cons. split; [discriminate | apply bracket_free_nil].
Qed.

Section Collapse.
Variable pattern : regex.
Variable repl : list piece.
Hypothesis Hpattern : bracketed pattern repl.

(** Where the pattern matches a list written over several lines, the scan
    writes the list on one line, whatever stands before and after. *)
Lemma sub_collapses (pre post : text) (items : list (nat * text))
  (close : nat) (caps : captures) :
  match_at pattern (spread items close ++ post) = Some (caps, post) ->
  expand repl caps = inline (map snd items) ->
  sub pattern repl (pre ++ spread items close ++ post)
  = sub pattern repl pre ++ inline (map snd items) ++ sub pattern repl post.
Proof.
  intros M E. change (spread items close ++ post)
    with ("["%char :: (LF :: spread_items items
                          ++ LF :: spaces close ++ ["]"%char]) ++ post) in *.
  rewrite (sub_at_bracket Hpattern _ (n := List.length pre)) by lia.
  rewrite (sub_replace Hpattern _ M), E. reflexivity.
Qed.

(** A list already on one line is passed over. *)
Lemma sub_passes_inline (pre post : text) (elems : list text) :
  elems <> [] -> Forall numeral elems ->
  sub pattern repl (pre ++ inline elems ++ post)
  = sub pattern repl pre ++ inline elems ++ sub pattern repl post.
Proof.
  intros Hne Hnum.
  destruct (inline_form Hne Hnum) as (c & e & -> & Hc & He).
  cbn [app]. rewrite (sub_at_bracket Hpattern _ (n := List.length pre)) by lia.
  rewrite (@sub_copy_one pattern repl)
    by (apply (no_match_second Hpattern); exact Hc).
  change (c :: e ++ post) with ((c :: e) ++ post).
  rewrite (sub_copy Hpattern _ He). reflexivity.
Qed.

(** A list over several lines that the pattern does not match is passed
    over. *)
Lemma sub_passes_spread (pre post : text) (items : list (nat * text))
  (close : nat) :
  numerals items ->
  match_at pattern (spread items close ++ post) = None ->
  sub pattern repl (pre ++ spread items close ++ post)
  = sub pattern repl pre ++ spread items close ++ sub pattern repl post.
Proof.
  intros Hnum M.
  destruct (spread_form close Hnum) as (w & E & Hw). rewrite E in *.
  cbn [app] in *.
  rewrite (sub_at_bracket Hpattern _ (n := List.length pre)) by lia.
  rewrite (@sub_copy_one pattern repl _ _ M).
  change (LF :: w ++ post) with ((LF :: w) ++ post).
  rewrite (sub_copy Hpattern).
  - reflexivity.
  - apply bracket_free_cons. split; [discriminate | exact Hw].
Qed.

End Collapse.

(** C7, as the script has it.  A vector of two or three numerals of
    [number_pattern] (an optional minus sign, digits, and optionally a point
    and digits), written over several lines with any indentation, comes out
    of the compaction on one line, its numerals character for character and
    separated by a comma and a space; what stands before and after it is
    compacted as if the vector were not there. *)
Theorem short_vector_compacted (pre post : text)
  (items : list (nat * text)) (close : nat) :
  List.length items = 2 \/ List.length items = 3 ->
  Forall (fun item => fullmatch number_pattern (snd item) = true) items ->
  compact (pre ++ spread items close ++ post)
  = compact pre ++ inline (map snd items) ++ compact post.
Proof.
  intros Hlen Hfull. pose proof (fullmatch_numerals Hfull) as Hnum.
  unfold compact. destruct Hlen as [Hlen | Hlen].
  - destruct items as [|[a1 n1] [|[a2 n2] [|item more]]]; try discriminate.
    rewrite (@sub_collapses _ _ bracketed_double pre post
               [(a1, n1); (a2, n2)] close
               (caps_of 1 [(a1, n1); (a2, n2)] [])).
    + apply (sub_passes_inline bracketed_triple); [discriminate|].
      apply (numerals_elems Hnum).
    + rewrite double_pattern_reads.
      apply (@read_vector_complete [(a1, n1); (a2, n2)]);
        [discriminate | exact Hnum].
    + apply expand_double.
  - destruct items as [|[a1 n1] [|[a2 n2] [|[a3 n3] [|item more]]]];
      try discriminate.
    rewrite (sub_passes_spread bracketed_double pre post close Hnum).
    + apply (@sub_collapses _ _ bracketed_triple _ _
               [(a1, n1); (a2, n2); (a3, n3)] close
               (caps_of 1 [(a1, n1); (a2, n2); (a3, n3)] [])).
      * rewrite triple_pattern_reads.
        apply (@read_vector_complete [(a1, n1); (a2, n2); (a3, n3)]);
          [discriminate | exact Hnum].
      * apply expand_triple.
    + inversion Hnum as [|? ? H1 Hnum2]; subst.
      inversion Hnum2 as [|? ? H2 Hnum3]; subst.
      inversion Hnum3 as [|? ? H3 _]; subst.
      apply double_pattern_on_triple; assumption.
Qed.

Lemma short_vector_compacted_witness :
  compact (chars "{" ++ spread [(8, chars "1.0"); (8, chars "-2");
                                (8, chars "3.25")] 4 ++ chars "}")
  = chars "{[1.0, -2, 3.25]}".
Proof.
  rewrite short_vector_compacted.
  - reflexivity.
  - right. reflexivity.
  - repeat constructor.
Defined.

(** C7, as stated, fails: [1e-05] is a number as [json.dumps] writes it, it
    is not a numeral of [number_pattern], and the vector that holds it stays
    on its five lines. *)
Lemma exponent_vector_not_compacted :
  fullmatch json_number_pattern (chars "1e-05") = true
  /\ fullmatch number_pattern (chars "1e-05") = false
  /\ compact exponent_vector = exponent_vector
  /\ List.length (filter (Ascii.eqb LF) (compact exponent_vector)) = 4.
Proof.
  repeat split; vm_compute; reflexivity.
Qed.

(** * Further properties *)

(** ** Vectors and quaternions *)

Section QuaternionFacts.
Context {A : Type} `{NumRing A}.
Local Open Scope num_scope.

Add Ring num_ring_facts : num_ring.

(** X1.  Turning by [p] and then by [q] is turning once by the product that
    [multiply_quats p q] computes. *)
Theorem rotate_quat_composes (p0 p1 p2 p3 q0 q1 q2 q3 v0 v1 v2 : A) :
  (w <- rotate_quat [v0; v1; v2] [p0; p1; p2; p3] ;;
   rotate_quat w [q0; q1; q2; q3])
  = (pq <- multiply_quats [p0; p1; p2; p3] [q0; q1; q2; q3] ;;
     rotate_quat [v0; v1; v2] pq).
Proof.
  unfold rotate_quat. cbn. componentwise; ring.
Qed.

(** X2.  [rotate_quat] keeps scalar products, up to the square of the squared
    norm of the quaternion: with a quaternion of norm one, lengths and
    angles are kept. *)
Theorem rotate_quat_dot (q0 q1 q2 q3 u0 u1 u2 v0 v1 v2 : A) :
  exists ru rv,
    rotate_quat [u0; u1; u2] [q0; q1; q2; q3] = Ok ru
    /\ rotate_quat [v0; v1; v2] [q0; q1; q2; q3] = Ok rv
    /\ dot ru rv
       = norm2 [q0; q1; q2; q3] * norm2 [q0; q1; q2; q3]
         * dot [u0; u1; u2] [v0; v1; v2]
    /\ (norm2 [q0; q1; q2; q3] = n1 ->
        dot ru rv = dot [u0; u1; u2] [v0; v1; v2]).
Proof.
  eexists. eexists. split; [reflexivity|]. split; [reflexivity|].
  assert (E : forall r0 r1 r2 r3 a0 a1 a2 b0 b1 b2 : A,
            dot (slice_last 3
                   [r0; a0; a1; a2]) (slice_last 3 [r1; b0; b1; b2])
            = a0 * b0 + a1 * b1 + a2 * b2).
  { intros. cbn. ring. }
  split.
  - cbn. ring.
  - intros Hn. cbn in Hn. cbn.
    set (n := q0 * q0 + (q1 * q1 + (q2 * q2 + (q3 * q3 + n0)))) in Hn.
    transitivity (n * n * (u0 * v0 + (u1 * v1 + (u2 * v2 + n0))));
      [subst n; ring | rewrite Hn; ring].
Qed.

(** X3.  The two axes of the camera, lines 51 and 52: whatever the quaternion,
    the turned viewing direction and the turned up direction are at a right
    angle, and both have the squared length [norm2 q * norm2 q]. *)
Theorem camera_axes_orthogonal (q0 q1 q2 q3 : A) :
  exists forward upward,
    rotate_quat [n0; n0; - n1] [q0; q1; q2; q3] = Ok forward
    /\ rotate_quat [n0; n1; n0] [q0; q1; q2; q3] = Ok upward
    /\ dot forward upward = n0
    /\ norm2 forward = norm2 [q0; q1; q2; q3] * norm2 [q0; q1; q2; q3]
    /\ norm2 upward = norm2 [q0; q1; q2; q3] * norm2 [q0; q1; q2; q3].
Proof.
  eexists. eexists. split; [reflexivity|]. split; [reflexivity|].
  repeat split; cbn; ring.
Qed.

(** X4.  [rotate_quat] is additive in the vector. *)
Theorem rotate_quat_add_vec (q0 q1 q2 q3 u0 u1 u2 v0 v1 v2 : A) :
  rotate_quat (add_vec [u0; u1; u2] [v0; v1; v2]) [q0; q1; q2; q3]
  = (ru <- rotate_quat [u0; u1; u2] [q0; q1; q2; q3] ;;
     rv <- rotate_quat [v0; v1; v2] [q0; q1; q2; q3] ;;
     Ok (add_vec ru rv)).
Proof.
  unfold rotate_quat. cbn. componentwise; ring.
Qed.

(** X5.  A quaternion and its opposite turn alike, and [(1, 0, 0, 0)] turns
    nothing. *)
Theorem rotate_quat_sign (q0 q1 q2 q3 v0 v1 v2 : A) :
  rotate_quat [v0; v1; v2] (map nneg [q0; q1; q2; q3])
  = rotate_quat [v0; v1; v2] [q0; q1; q2; q3]
  /\ rotate_quat [v0; v1; v2] [n1; n0; n0; n0] = Ok [v0; v1; v2].
Proof.
  split; unfold rotate_quat; cbn; componentwise; ring.
Qed.

(** X6.  [multiply_quats] is associative, has [(1, 0, 0, 0)] as unit on both
    sides, and multiplies squared norms. *)
Theorem multiply_quats_monoid (a0 a1 a2 a3 b0 b1 b2 b3 c0 c1 c2 c3 : A) :
  let a := [a0; a1; a2; a3] in
  let b := [b0; b1; b2; b3] in
  let c := [c0; c1; c2; c3] in
  (ab <- multiply_quats a b ;; multiply_quats ab c)
  = (bc <- multiply_quats b c ;; multiply_quats a bc)
  /\ multiply_quats [n1; n0; n0; n0] a = Ok a
  /\ multiply_quats a [n1; n0; n0; n0] = Ok a
  /\ (exists ab, multiply_quats a b = Ok ab
                 /\ norm2 ab = norm2 a * norm2 b).
Proof.
  intros a b c. subst a b c. repeat split.
  - cbn. componentwise; ring.
  - cbn. componentwise; ring.
  - cbn. componentwise; ring.
  - eexists. split; [reflexivity|]. cbn. ring.
Qed.

End QuaternionFacts.

Lemma rotate_quat_composes_witness :
  (w <- rotate_quat [1; 2; 3]%Z [1; 1; 0; 0]%Z ;;
   rotate_quat w [1; 0; 1; 0]%Z)
  = Ok [8; -12; -4]%Z.
Proof.
  rewrite (rotate_quat_composes (A := Z) 1 1 0 0 1 0 1 0 1 2 3)%Z.
  reflexivity.
Defined.

Lemma rotate_quat_dot_witness :
  exists ru rv,
    rotate_quat [1; 0; 0]%Z [0; 0; 0; 1]%Z = Ok ru
    /\ rotate_quat [1; 2; 3]%Z [0; 0; 0; 1]%Z = Ok rv
    /\ dot ru rv = 1%Z.
Proof.
  destruct (rotate_quat_dot (A := Z) 0 0 0 1 1 0 0 1 2 3)%Z
    as (ru & rv & Eu & Ev & _ & Hunit).
  exists ru, rv. split; [exact Eu|]. split; [exact Ev|].
  rewrite Hunit; reflexivity.
Defined.

Lemma camera_axes_orthogonal_witness :
  exists forward upward,
    rotate_quat [0; 0; -1]%Z [1; 2; 3; 4]%Z = Ok forward
    /\ rotate_quat [0; 1; 0]%Z [1; 2; 3; 4]%Z = Ok upward
    /\ dot forward upward = 0%Z.
Proof.
  destruct (camera_axes_orthogonal (A := Z) 1 2 3 4)%Z
    as (f & u & Ef & Eu & Hd & _).
  exists f, u. auto.
Defined.

Lemma rotate_quat_add_vec_witness :
  rotate_quat (add_vec [1; 0; 0]%Z [0; 1; 0]%Z) [1; 0; 0; 1]%Z
  = Ok [-2; 2; 0]%Z.
Proof.
  rewrite (rotate_quat_add_vec (A := Z) 1 0 0 1 1 0 0 0 1 0)%Z.
  reflexivity.
Defined.

Lemma rotate_quat_sign_witness :
  rotate_quat [1; 2; 3]%Z (map Z.opp [1; 0; 0; 1]%Z)
  = rotate_quat [1; 2; 3]%Z [1; 0; 0; 1]%Z.
Proof.
  exact (proj1 (rotate_quat_sign (A := Z) 1 0 0 1 1 2 3)%Z).
Defined.

Lemma multiply_quats_monoid_witness :
  multiply_quats [1; 0; 0; 0]%Z [1; 2; 3; 4]%Z = Ok [1; 2; 3; 4]%Z.
Proof.
  exact (proj1 (proj2 (multiply_quats_monoid (A := Z) 1 2 3 4 0 0 0 0
                         0 0 0 0)%Z)).
Defined.


(** ** When the vector functions return *)

Section VectorShapes.
Context {A : Type} `{Num A}.

(** X7.  [rotate_quat] returns exactly when the vector has three components and
    the quaternion four; it then gives three components, and reads nothing
    beyond the first three and the first four.  Otherwise it raises
    [IndexError]. *)
Theorem rotate_quat_returns (vec quat : list A) :
  (List.length vec < 3 \/ List.length quat < 4 ->
   rotate_quat vec quat = Raise IndexError)
  /\ (3 <= List.length vec -> 4 <= List.length quat ->
      exists r0 r1 r2, rotate_quat vec quat = Ok [r0; r1; r2])
  /\ rotate_quat (firstn 3 vec) (firstn 4 quat) = rotate_quat vec quat.
Proof.
  destruct vec as [|v0 [|v1 [|v2 vec']]];
    destruct quat as [|q0 [|q1 [|q2 [|q3 quat']]]];
    cbn [List.length]; (split; [|split]);
    try (intros; exfalso; lia); try reflexivity;
    try (intros; do 3 eexists; reflexivity).
Qed.

(** X8.  [add_vec] never raises: it stops at the end of the shorter list. *)
Theorem add_vec_length (a b : list A) :
  List.length (add_vec a b) = Nat.min (List.length a) (List.length b).
Proof.
  revert b. induction a as [|x a IH]; intros [|y b]; cbn; auto.
Qed.

(** Swapping the last two coordinates goes through [add_vec]: the sum of
    two swapped vectors is the swapped sum. *)
Lemma xzy_to_xyz_add_vec (a b a' b' : list A) :
  xzy_to_xyz a = Ok a' -> xzy_to_xyz b = Ok b' ->
  xzy_to_xyz (add_vec a b) = Ok (add_vec a' b').
Proof.
  destruct a as [|a0 [|a1 [|a2 a3]]]; try discriminate.
  destruct b as [|b0 [|b1 [|b2 b3]]]; try discriminate.
  cbn. intros E1 E2. injection E1 as <-. injection E2 as <-. reflexivity.
Qed.

End VectorShapes.

Lemma rotate_quat_returns_witness :
  rotate_quat [1; 2]%Z [1; 0; 0; 0]%Z = Raise IndexError
  /\ exists r0 r1 r2,
       rotate_quat [1; 2; 3; 4]%Z [1; 0; 0; 0; 7]%Z = Ok [r0; r1; r2].
Proof.
  split.
  - apply (proj1 (rotate_quat_returns [1; 2]%Z [1; 0; 0; 0]%Z)).
    left. cbn. lia.
  - apply (proj1 (proj2 (rotate_quat_returns [1; 2; 3; 4]%Z
                           [1; 0; 0; 0; 7]%Z))); cbn; lia.
Defined.

(** ** The camera, lines 48 to 60 *)

(** X9.  The camera is written exactly when the location has three components
    and the quaternion four; otherwise the script stops with [IndexError].
    The three vectors written have three components each. *)
Theorem camera_dict_returns (scene : blend_scene) :
  (List.length (camera_location scene) < 3
   \/ List.length (camera_rotation_quaternion scene) < 4 ->
   camera_dict scene = Raise IndexError)
  /\ (3 <= List.length (camera_location scene) ->
      4 <= List.length (camera_rotation_quaternion scene) ->
      exists cam,
        camera_dict scene = Ok cam
        /\ List.length (origin cam) = 3
        /\ List.length (look_at cam) = 3
        /\ List.length (up cam) = 3
        /\ film_dimensions cam = [resolution_x scene; resolution_y scene]).
Proof.
  destruct scene as [loc quat angle rx ry world]. unfold camera_dict.
  cbn [camera_location camera_rotation_quaternion resolution_x resolution_y
       camera_angle].
  destruct loc as [|l0 [|l1 [|l2 loc']]];
    destruct quat as [|q0 [|q1 [|q2 [|q3 quat']]]];
    cbn [List.length]; split;
    try (intros; exfalso; lia); try (intros; reflexivity);
    try (intros [?|?]; exfalso; lia).
  intros _ _. eexists. split; [reflexivity|]. cbn. auto.
Qed.

Lemma camera_dict_returns_witness :
  camera_dict (identity_scene [1; 2]%float 1%float 640 480 [])
  = Raise IndexError
  /\ exists cam,
       camera_dict (identity_scene [1; 2; 3]%float 1%float 640 480 []) = Ok cam
       /\ List.length (look_at cam) = 3.
Proof.
  split.
  - apply (proj1 (camera_dict_returns
                    (identity_scene [1; 2]%float 1%float 640 480 []))).
    left. cbn. lia.
  - destruct (proj2 (camera_dict_returns
                       (identity_scene [1; 2; 3]%float 1%float 640 480 [])))
      as (cam & E & _ & L & _); [cbn; lia | cbn; lia |].
    exists cam. auto.
Defined.

(** X10.  The point looked at is the location plus the turned viewing direction,
    with the last two coordinates swapped afterwards: swapping before the
    sum, as the script does, gives the same vector. *)
Theorem camera_look_at (scene : blend_scene) (cam : camera) :
  camera_dict scene = Ok cam ->
  exists forward,
    rotate_quat [n0; n0; nneg n1]
      (slice 0 4 (camera_rotation_quaternion scene)) = Ok forward
    /\ xzy_to_xyz (add_vec (slice 0 3 (camera_location scene)) forward)
       = Ok (look_at cam)
    /\ xzy_to_xyz (slice 0 3 (camera_location scene)) = Ok (origin cam).
Proof.
  unfold camera_dict.
  destruct (xzy_to_xyz (slice 0 3 (camera_location scene)))
    as [o|e] eqn:Eo; [|discriminate].
  destruct (rotate_quat [n0; n0; nneg n1]
              (slice 0 4 (camera_rotation_quaternion scene)))
    as [f|e] eqn:Ef; [|discriminate].
  cbn [bind].
  destruct (xzy_to_xyz f) as [f'|e] eqn:Ef'; [|discriminate].
  cbn [bind].
  destruct (rotate_quat [n0; n1; n0]
              (slice 0 4 (camera_rotation_quaternion scene)))
    as [u|e]; [|discriminate].
  cbn [bind].
  destruct (xzy_to_xyz u) as [u'|e]; [|discriminate].
  cbn [bind]. intros E. injection E as <-. cbn [look_at origin].
  exists f. split; [reflexivity|]. split; [|reflexivity].
  apply xzy_to_xyz_add_vec; assumption.
Qed.

Lemma camera_look_at_witness :
  exists cam forward,
    camera_dict (identity_scene [1; 2; 3]%float 1%float 640 480 []) = Ok cam
    /\ xzy_to_xyz (add_vec [1; 2; 3]%float forward) = Ok (look_at cam).
Proof.
  eexists. 
  destruct (@camera_look_at
              (identity_scene [1; 2; 3]%float 1%float 640 480 []) _ eq_refl)
    as (f & _ & E & _).
  exists f. split; [reflexivity | exact E].
Defined.


(** ** Colours read from nodes, lines 62 to 65 and 91 to 95 *)








(** ** The loop over the meshes, lines 84 to 101 *)

Section ObjectsDict.
Context {V : Type}.

Lemma setitem_keys_old (k : string) (v : V) (d : dict V) :
  In k (map fst d) -> map fst (setitem k v d) = map fst d.
Proof.
  induction d as [|[k' v'] d IH]; cbn; [tauto|].
  intros Hin. destruct (String.eqb k' k) eqn:E.
  - apply String.eqb_eq in E. subst. reflexivity.
  - cbn. f_equal. apply IH. destruct Hin as [->|Hin]; [|exact Hin].
    rewrite String.eqb_refl in E. discriminate.
Qed.

Lemma setitem_keys_new (k : string) (v : V) (d : dict V) :
  ~ In k (map fst d) -> map fst (setitem k v d) = map fst d ++ [k].
Proof.
  induction d as [|[k' v'] d IH]; cbn; [reflexivity|].
  intros Hn. destruct (String.eqb k' k) eqn:E.
  - apply String.eqb_eq in E. subst. tauto.
  - cbn. f_equal. apply IH. tauto.
Qed.

Lemma setitem_keys_in (k : string) (v : V) (d : dict V) (k' : string) :
  In k' (map fst (setitem k v d)) <-> In k' (map fst d) \/ k' = k.
Proof.
  destruct (in_dec string_dec k (map fst d)) as [Hin|Hn].
  - rewrite (@setitem_keys_old k v d Hin). split; [tauto|].
    intros [?| ->]; assumption.
  - rewrite (@setitem_keys_new k v d Hn), in_app_iff. cbn. intuition.
Qed.

Lemma setitem_keys_NoDup (k : string) (v : V) (d : dict V) :
  NoDup (map fst d) -> NoDup (map fst (setitem k v d)).
Proof.
  intros Hd. destruct (in_dec string_dec k (map fst d)) as [Hin|Hn].
  - rewrite (@setitem_keys_old k v d Hin). exact Hd.
  - rewrite (@setitem_keys_new k v d Hn).
    apply NoDup_app; [exact Hd | repeat constructor; cbn; tauto |].
    intros x Hx [<-|[]]. exact (Hn Hx).
Qed.

Lemma getkey_setitem (k k' : string) (v : V) (d : dict V) :
  getkey k' (setitem k v d)
  = if String.eqb k k' then Some v else getkey k' d.
Proof.
  unfold getkey. induction d as [|[k0 v0] d IH]; cbn.
  - destruct (String.eqb k k'); reflexivity.
  - destruct (String.eqb k0 k) eqn:E.
    + apply String.eqb_eq in E. subst k0. cbn.
      destruct (String.eqb k k'); reflexivity.
    + cbn. destruct (String.eqb k0 k') eqn:E'.
      * apply String.eqb_eq in E'. subst k0.
        rewrite String.eqb_sym, E. reflexivity.
      * exact IH.
Qed.

Lemma setitem_In (k : string) (v : V) (d : dict V) (k' : string) (e : V) :
  In (k', e) (setitem k v d) -> (k' = k /\ e = v) \/ In (k', e) d.
Proof.
  induction d as [|[k0 v0] d IH]; cbn.
  - intros [E|[]]. injection E as <- <-. auto.
  - destruct (String.eqb k0 k); cbn.
    + intros [E|Hin]; [injection E as <- <-|]; auto.
    + intros [E|Hin]; [auto|]. destruct (IH Hin); auto.
Qed.

End ObjectsDict.

Lemma export_mesh_ok (cwd : string) (st st' : export_state)
  (m : blend_object) :
  export_mesh cwd st m = Ok st' ->
  exists c,
    color (materials m) = Ok c
    /\ exported st' = exported st ++ [export_path m]
    /\ objects st'
       = setitem (name m)
           {| entry_type := "mesh";
              file := (cwd ++ "/" ++ export_path m)%string;
              material := {| material_type := "diffuse";
                             material_color := c |} |}
           (objects st).
Proof.
  unfold export_mesh. destruct (color (materials m)) as [c|e];
    [|discriminate].
  cbn [bind]. intros E. injection E as <-. exists c. auto.
Qed.

Lemma export_loop_app (cwd : string) (a b : list blend_object) :
  forall st,
    export_loop cwd st (a ++ b)
    = (st1 <- export_loop cwd st a ;; export_loop cwd st1 b).
Proof.
  induction a as [|m a IH]; intros st; cbn; [reflexivity|].
  destruct (export_mesh cwd st m) as [st1|e]; cbn; [apply IH | reflexivity].
Qed.

Lemma export_loop_exported (cwd : string) (ms : list blend_object) :
  forall st st',
    export_loop cwd st ms = Ok st' ->
    exported st' = exported st ++ map export_path ms.
Proof.
  induction ms as [|m ms IH]; intros st st'; cbn.
  - intros E. injection E as <-. rewrite app_nil_r. reflexivity.
  - destruct (export_mesh cwd st m) as [st1|e] eqn:E1; [|discriminate].
    cbn [bind]. intros E. rewrite (IH _ _ E).
    destruct (export_mesh_ok _ _ _ E1) as (c & _ & -> & _).
    rewrite <- app_assoc. reflexivity.
Qed.

Lemma export_loop_keys (cwd : string) (ms : list blend_object) :
  forall st st',
    export_loop cwd st ms = Ok st' ->
    (forall k, In k (map fst (objects st'))
               <-> In k (map fst (objects st)) \/ In k (map name ms))
    /\ (NoDup (map fst (objects st)) -> NoDup (map fst (objects st'))).
Proof.
  induction ms as [|m ms IH]; intros st st'; cbn.
  - intros E. injection E as <-. split; [intros k; tauto | auto].
  - destruct (export_mesh cwd st m) as [st1|e] eqn:E1; [|discriminate].
    cbn [bind]. intros E. destruct (IH _ _ E) as (Hk & Hd).
    destruct (export_mesh_ok _ _ _ E1) as (c & _ & _ & Eo).
    rewrite Eo in Hk, Hd. split.
    + intros k. rewrite Hk, setitem_keys_in. intuition.
    + intros Hs. apply Hd, setitem_keys_NoDup, Hs.
Qed.

Lemma export_loop_entries (cwd : string) (ms : list blend_object) :
  forall st st' k e,
    export_loop cwd st ms = Ok st' ->
    In (k, e) (objects st') ->
    In (k, e) (objects st)
    \/ (In k (map name ms)
        /\ entry_type e = "mesh"%string
        /\ file e = (cwd ++ "/" ++ "objects/" ++ k ++ ".obj")%string
        /\ material_type (material e) = "diffuse"%string).
Proof.
  induction ms as [|m ms IH]; intros st st' k e; cbn.
  - intros E. injection E as <-. auto.
  - destruct (export_mesh cwd st m) as [st1|x] eqn:E1; [|discriminate].
    cbn [bind]. intros E Hin.
    destruct (IH _ _ _ _ E Hin) as [Hin1|(Hn & He)]; [|tauto].
    destruct (export_mesh_ok _ _ _ E1) as (c & _ & _ & Eo).
    rewrite Eo in Hin1. apply setitem_In in Hin1.
    destruct Hin1 as [(-> & ->)|Hin1]; [|auto].
    right. cbn. auto.
Qed.

Lemma export_loop_other_key (cwd : string) (k : string)
  (ms : list blend_object) :
  (forall m, In m ms -> name m <> k) ->
  forall st st',
    export_loop cwd st ms = Ok st' ->
    getkey k (objects st') = getkey k (objects st).
Proof.
  induction ms as [|m ms IH]; intros Hk st st'; cbn.
  - intros E. injection E as <-. reflexivity.
  - destruct (export_mesh cwd st m) as [st1|x] eqn:E1; [|discriminate].
    cbn [bind]. intros E.
    rewrite (IH (fun m' H' => Hk m' (or_intror H')) _ _ E).
    destruct (export_mesh_ok _ _ _ E1) as (c & _ & _ & ->).
    rewrite getkey_setitem.
    destruct (String.eqb (name m) k) eqn:Ek; [|reflexivity].
    apply String.eqb_eq in Ek. destruct (Hk m (or_introl eq_refl) Ek).
Qed.

Lemma meshes_In (objs : list blend_object) (m : blend_object) :
  In m (meshes objs)
  <-> In m objs /\ type m = "MESH"%string /\ hide_render m = false.
Proof.
  unfold meshes, renderable. rewrite filter_In, andb_true_iff,
    String.eqb_eq, negb_true_iff. tauto.
Qed.

(** X13.  Every path handed to the exporter is the path of a mesh that is
    rendered, in the order of the host's objects; every entry of [objects]
    is stored under the name of such a mesh, is a diffuse mesh, and names
    the exported file of that name under the working directory. *)
Theorem export_meshes_entries (cwd : string) (objs : list blend_object)
  (st : export_state) :
  export_meshes cwd objs = Ok st ->
  exported st = map export_path (meshes objs)
  /\ forall k e,
       In (k, e) (objects st) ->
       (exists m, In m objs /\ type m = "MESH"%string
                  /\ hide_render m = false /\ name m = k
                  /\ In (export_path m) (exported st)
                  /\ file e = (cwd ++ "/" ++ export_path m)%string)
       /\ entry_type e = "mesh"%string
       /\ material_type (material e) = "diffuse"%string.
Proof.
  unfold export_meshes. intros E.
  pose proof (export_loop_exported _ _ _ E) as Ex. cbn in Ex.
  split; [exact Ex|]. intros k e Hin.
  destruct (export_loop_entries _ _ _ _ _ E Hin) as [[]|(Hn & Ht & Hf & Hm)].
  split; [|auto].
  apply in_map_iff in Hn. destruct Hn as (m & <- & Hm').
  exists m. pose proof (proj1 (meshes_In objs m) Hm') as (H1 & H2 & H3).
  repeat split; auto.
  rewrite Ex. apply in_map, Hm'.
Qed.

Lemma export_meshes_entries_witness :
  exists st,
    export_meshes "/home/u"
      [{| name := "Cube"; type := "MESH"; hide_render := false;
          materials := [] |};
       {| name := "Lamp"; type := "LIGHT"; hide_render := false;
          materials := [] |}] = Ok st
    /\ exported st = ["objects/Cube.obj"%string].
Proof.
  eexists. split; [reflexivity|].
  match goal with
  | |- exported ?st = _ =>
      exact (proj1 (@export_meshes_entries "/home/u"
                      [{| name := "Cube"; type := "MESH";
                          hide_render := false; materials := [] |};
                       {| name := "Lamp"; type := "LIGHT";
                          hide_render := false; materials := [] |}]
                      st eq_refl))
  end.
Defined.



(** X14.  The keys of [objects] are the names of the meshes that are rendered,
    each once: an object that is hidden or is no mesh gives no entry.  When
    no two rendered meshes share a name, the entries come in the order of
    the host's objects. *)
Theorem export_meshes_keys (cwd : string) (objs : list blend_object)
  (st : export_state) :
  export_meshes cwd objs = Ok st ->
  NoDup (map fst (objects st))
  /\ (forall k, In k (map fst (objects st))
                <-> exists m, In m objs /\ type m = "MESH"%string
                              /\ hide_render m = false /\ name m = k)
  /\ (NoDup (map name (meshes objs)) ->
      map fst (objects st) = map name (meshes objs)).
Proof.
  unfold export_meshes. intros E.
  destruct (export_loop_keys _ _ _ E) as (Hk & Hd). cbn in Hk, Hd.
  split; [apply Hd; constructor|]. split.
  - intros k. rewrite Hk, in_map_iff. split.
    + intros [[]|(m & <- & Hm)]. exists m.
      apply meshes_In in Hm. tauto.
    + intros (m & H1 & H2 & H3 & <-). right. exists m.
      split; [reflexivity|]. apply meshes_In. auto.
  - clear Hk Hd. revert E.
    assert (G : forall ms st0 st1,
              export_loop cwd st0 ms = Ok st1 ->
              NoDup (map fst (objects st0) ++ map name ms) ->
              map fst (objects st1) = map fst (objects st0) ++ map name ms).
    { induction ms as [|m ms IH]; intros st0 st1; cbn.
      - intros E. injection E as <-. rewrite app_nil_r. reflexivity.
      - destruct (export_mesh cwd st0 m) as [st2|x] eqn:E1; [|discriminate].
        cbn [bind]. intros E Hn.
        destruct (export_mesh_ok _ _ _ E1) as (c & _ & _ & Eo).
        assert (Hnew : ~ In (name m) (map fst (objects st0))).
        { intros Hin. apply NoDup_remove_2 in Hn. apply Hn.
          apply in_or_app. auto. }
        rewrite (IH _ _ E); rewrite Eo, (@setitem_keys_new _ _ _ _ Hnew).
        + rewrite <- app_assoc. reflexivity.
        + rewrite <- app_assoc. exact Hn. }
    intros E Hn. exact (G _ _ _ E Hn).
Qed.

Lemma export_meshes_keys_witness :
  exists st,
    export_meshes "/home/u" example_objects = Ok st
    /\ NoDup (map fst (objects st)).
Proof.
  eexists. split; [reflexivity|].
  match goal with
  | |- NoDup (map fst (objects ?st)) =>
      exact (proj1 (@export_meshes_keys "/home/u" example_objects st
                      eq_refl))
  end.
Defined.

(** X15.  Of several rendered meshes with one name, the entry has the colour of
    the last one. *)
Theorem export_meshes_last_wins (cwd : string)
  (before after : list blend_object) (m : blend_object)
  (st : export_state) :
  export_meshes cwd (before ++ m :: after) = Ok st ->
  type m = "MESH"%string -> hide_render m = false ->
  (forall m', In m' after -> type m' = "MESH"%string ->
              hide_render m' = false -> name m' <> name m) ->
  exists e,
    getkey (name m) (objects st) = Some e
    /\ color (materials m) = Ok (material_color (material e)).
Proof.
  unfold export_meshes, meshes. intros E Ht Hh Hafter.
  rewrite filter_app in E. cbn [filter] in E.
  assert (Hr : renderable m = true).
  { unfold renderable. rewrite Ht, Hh. reflexivity. }
  rewrite Hr in E. rewrite export_loop_app in E.
  destruct (export_loop cwd {| exported := []; objects := [] |}
              (filter renderable before)) as [st1|x]; [|discriminate].
  cbn [bind export_loop] in E.
  destruct (export_mesh cwd st1 m) as [st2|x] eqn:E2; [|discriminate].
  cbn [bind] in E.
  destruct (export_mesh_ok _ _ _ E2) as (c & Ec & _ & Eo).
  rewrite (@export_loop_other_key cwd (name m) (filter renderable after)
             ltac:(intros m' Hm'; apply (proj1 (meshes_In after m')) in Hm';
                   apply Hafter; tauto) _ _ E).
  rewrite Eo, getkey_setitem, String.eqb_refl.
  eexists. split; [reflexivity | exact Ec].
Qed.

Lemma export_meshes_last_wins_witness :
  exists st e,
    export_meshes "/home/u" example_objects = Ok st
    /\ getkey "Cube" (objects st) = Some e
    /\ color [[("Diffuse BSDF"%string,
                {| inputs := [[1; 0; 0; 1]%float] |})]]
       = Ok (material_color (material e)).
Proof.
  eexists.
  match goal with
  | |- exists e, export_meshes _ _ = Ok ?st /\ _ =>
      destruct (@export_meshes_last_wins "/home/u"
                  (firstn 3 example_objects) []
                  {| name := "Cube"; type := "MESH"; hide_render := false;
                     materials :=
                       [[("Diffuse BSDF"%string,
                          {| inputs := [[1; 0; 0; 1]%float] |})]] |}
                  _ eq_refl eq_refl eq_refl
                  ltac:(intros m' [])) as (e & E1 & E2)
  end.
  exists e. split; [reflexivity|]. split; [exact E1 | exact E2].
Defined.




(** ** The name of the output file, lines 103 to 110 *)

Lemma string_length_app (a b : string) :
  String.length (a ++ b) = String.length a + String.length b.
Proof.
  induction a as [|c a IH]; cbn; [reflexivity | rewrite IH; reflexivity].
Qed.

Lemma substring_prefix (a b : string) :
  substring 0 (String.length a) (a ++ b) = a.
Proof.
  induction a as [|c a IH]; cbn.
  - destruct b; reflexivity.
  - rewrite IH. reflexivity.
Qed.

Lemma drop_last_app (a b : string) :
  drop_last (String.length b) (a ++ b) = a.
Proof.
  unfold drop_last. rewrite string_length_app.
  replace (String.length a + String.length b - String.length b)
    with (String.length a) by lia.
  apply substring_prefix.
Qed.

Lemma endswith_app (s suffix : string) :
  endswith s suffix = true <-> exists prefix, s = (prefix ++ suffix)%string.
Proof.
  induction s as [|c s IH]; cbn [endswith].
  - rewrite orb_false_r, String.eqb_eq. split.
    + intros <-. exists ""%string. reflexivity.
    + intros ([|c p] & E); [exact E | discriminate].
  - rewrite orb_true_iff, String.eqb_eq, IH. split.
    + intros [<-|(p & ->)].
      * exists ""%string. reflexivity.
      * exists (String c p). reflexivity.
    + intros ([|c' p] & E).
      * left. exact E.
      * right. injection E as <- ->. eauto.
Qed.

(** X17.  The output name is the name of the host file without its ending
    [.blend], and [untitled] for a name without that ending (a file never
    saved has the empty name). *)
Theorem output_name_of_blend (blend_name : string) :
  (forall stem, output_name (stem ++ ".blend") = stem)
  /\ (endswith blend_name ".blend" = true ->
      (output_name blend_name ++ ".blend")%string = blend_name)
  /\ (endswith blend_name ".blend" = false ->
      output_name blend_name = "untitled"%string).
Proof.
  unfold output_name. split; [|split].
  - intros stem.
    rewrite (proj2 (endswith_app (stem ++ ".blend") ".blend"))
      by (exists stem; reflexivity).
    apply (drop_last_app stem ".blend").
  - intros E. rewrite E. apply endswith_app in E. destruct E as (p & ->).
    rewrite (drop_last_app p ".blend" : drop_last 6 (p ++ ".blend") = p).
    reflexivity.
  - intros ->. reflexivity.
Qed.

Lemma output_name_of_blend_witness :
  (output_name "scenes/cube.blend" ++ ".blend")%string
  = "scenes/cube.blend"%string
  /\ output_name "" = "untitled"%string.
Proof.
  split.
  - apply (proj1 (proj2 (output_name_of_blend "scenes/cube.blend"))).
    reflexivity.
  - apply (proj2 (proj2 (output_name_of_blend ""))). reflexivity.
Defined.

Lemma name_loop_spec (path_exists : string -> bool) (stem : string) :
  forall n s,
  exists j,
    s <= j <= s + n
    /\ name_loop path_exists stem (List.seq (S s) n) (tried stem s)
       = tried stem j
    /\ (forall i, s <= i < j -> path_exists (tried stem i) = true)
    /\ (j < s + n -> path_exists (tried stem j) = false).
Proof.
  induction n as [|n IH]; intros s.
  - exists s. cbn. repeat split; try reflexivity; intros; lia.
  - cbn [List.seq name_loop].
    destruct (path_exists (tried stem s)) eqn:E.
    + destruct (IH (S s)) as (j & Hj & Ej & Hbefore & Hfree).
      exists j. split; [lia|]. split; [exact Ej|]. split.
      * intros i Hi. destruct (Nat.eq_dec i s) as [->|Hne];
          [exact E | apply Hbefore; lia].
      * intros Hlt. apply Hfree. lia.
    + exists s. split; [lia|]. split; [reflexivity|]. split.
      * intros i Hi. lia.
      * intros _. exact E.
Qed.

(** X18.  The name chosen is the first one, among the plain name and the names
    numbered 1 to 98, that no file has; when all of these are taken it is
    the name numbered 99, whether a file has it or not. *)
Theorem output_filename_first_free (path_exists : string -> bool)
  (blend_name : string) :
  exists j,
    j <= 99
    /\ output_filename path_exists blend_name
       = tried (output_name blend_name) j
    /\ (forall i, i < j ->
          path_exists (tried (output_name blend_name) i) = true)
    /\ (j < 99 ->
        path_exists (output_filename path_exists blend_name) = false).
Proof.
  unfold output_filename.
  destruct (name_loop_spec path_exists (output_name blend_name) 99 0)
    as (j & Hj & Ej & Hbefore & Hfree).
  exists j. split; [lia|]. split; [exact Ej|]. split.
  - intros i Hi. apply Hbefore. lia.
  - intros Hlt. change (output_name blend_name ++ ".json")%string
      with (tried (output_name blend_name) 0).
    rewrite Ej. apply Hfree. lia.
Qed.

(** X19.  No file is overwritten as long as one of the hundred names is free
    (the plain name and the names numbered 1 to 99). *)
Theorem output_filename_fresh (path_exists : string -> bool)
  (blend_name : string) (i : nat) :
  i <= 99 ->
  path_exists (tried (output_name blend_name) i) = false ->
  path_exists (output_filename path_exists blend_name) = false.
Proof.
  intros Hi Hfree. unfold output_filename.
  destruct (name_loop_spec path_exists (output_name blend_name) 99 0)
    as (j & Hj & Ej & Hbefore & Hnext).
  change (output_name blend_name ++ ".json")%string
    with (tried (output_name blend_name) 0).
  rewrite Ej. destruct (Nat.eq_dec j 99) as [->|Hne].
  - destruct (Nat.eq_dec i 99) as [->|Hi']; [exact Hfree|].
    rewrite Hbefore in Hfree by lia. discriminate.
  - apply Hnext. lia.
Qed.

Lemma output_filename_fresh_witness :
  String.eqb "cube_1.json"
    (output_filename (String.eqb "cube_1.json") "cube.blend") = false.
Proof.
  apply (@output_filename_fresh (String.eqb "cube_1.json") "cube.blend" 0);
    [lia | reflexivity].
Defined.


(** ** More on the OBJ readers *)

Section ReaderMore.
Context {A : Type} `{Num A}.
Variable float_of : string -> option A.
Variable int_of : string -> option Z.

Lemma mesh_app_empty_l (d : @mesh A) :
  mesh_app {| vertices := []; indices := [] |} d = d.
Proof. destruct d. reflexivity. Qed.

Lemma mesh_app_empty_r (m : @mesh A) :
  mesh_app m {| vertices := []; indices := [] |} = m.
Proof. destruct m. unfold mesh_app. cbn. rewrite !app_nil_r. reflexivity. Qed.

Lemma mesh_app_assoc (a b c : @mesh A) :
  mesh_app (mesh_app a b) c = mesh_app a (mesh_app b c).
Proof. unfold mesh_app. cbn. rewrite !app_assoc. reflexivity. Qed.

(** One turn on a mesh is the turn on the empty mesh, appended. *)
Lemma loop_body_shift (m : mesh) (line : string) :
  loop_body float_of int_of m line
  = (d <- loop_body float_of int_of {| vertices := []; indices := [] |} line ;;
     Ok (mesh_app m d)).
Proof.
  unfold loop_body. destruct (split line) as [|tag tokens];
    [reflexivity|].
  cbn [getitem nth_error bind].
  destruct (String.eqb tag "v").
  - destruct tokens as [|t1 [|t2 [|t3 more]]]; cbn;
      repeat match goal with
             | |- context [float_of ?t] => destruct (float_of t); cbn
             end;
      try reflexivity.
    unfold mesh_app. cbn. rewrite app_nil_r. reflexivity.
  - destruct (String.eqb tag "f").
    + destruct (comprehension (index int_of) (slice 1 4 (tag :: tokens)));
        cbn; [|reflexivity].
      unfold mesh_app. cbn. rewrite app_nil_r. reflexivity.
    + cbn. rewrite mesh_app_empty_r. reflexivity.
Qed.

Lemma loop_shift (file : list string) : forall m : mesh,
  loop float_of int_of m file
  = (d <- read_obj float_of int_of file ;; Ok (mesh_app m d)).
Proof.
  unfold read_obj. induction file as [|line rest IH]; intros m.
  - cbn. rewrite mesh_app_empty_r. reflexivity.
  - cbn [loop]. rewrite (loop_body_shift m line).
    destruct (loop_body float_of int_of {| vertices := []; indices := [] |}
                line) as [d1|e]; cbn [bind]; [|reflexivity].
    rewrite (IH (mesh_app m d1)), (IH d1).
    destruct (loop float_of int_of {| vertices := []; indices := [] |} rest)
      as [d2|e]; cbn [bind]; [|reflexivity].
    rewrite mesh_app_assoc. reflexivity.
Qed.

Lemma loop_app (f1 f2 : list string) : forall m : mesh,
  loop float_of int_of m (f1 ++ f2)
  = (m1 <- loop float_of int_of m f1 ;; loop float_of int_of m1 f2).
Proof.
  induction f1 as [|line rest IH]; intros m; cbn; [reflexivity|].
  destruct (loop_body float_of int_of m line); cbn; [apply IH|reflexivity].
Qed.

(** X20.  Reading two files one after the other as one file gives the vertices
    of the first and then those of the second, and likewise the faces: the
    indices of the second are not moved past the vertices of the first. *)
Theorem read_obj_app (f1 f2 : list string) :
  read_obj float_of int_of (f1 ++ f2)
  = (m1 <- read_obj float_of int_of f1 ;;
     m2 <- read_obj float_of int_of f2 ;;
     Ok (mesh_app m1 m2)).
Proof.
  unfold read_obj at 1. rewrite loop_app.
  change (loop float_of int_of {| vertices := []; indices := [] |} f1)
    with (read_obj float_of int_of f1).
  destruct (read_obj float_of int_of f1) as [m1|e]; cbn [bind];
    [|reflexivity].
  apply loop_shift.
Qed.

Lemma comprehension_index_raises (tokens : list string) (e : exn) :
  comprehension (index int_of) tokens = Raise e -> e = ValueError.
Proof.
  induction tokens as [|t ts IH]; cbn [comprehension]; [discriminate|].
  destruct (index int_of t) as [i|x] eqn:Ei; cbn [bind].
  - destruct (comprehension (index int_of) ts); cbn [bind]; [discriminate|].
    intros E. apply IH. congruence.
  - intros E. injection E as <-. unfold index in Ei.
    destruct (int_of t); cbn in Ei; congruence.
Qed.

Lemma loop_body_exn (m : mesh) (line : string) (e : exn) :
  loop_body float_of int_of m line = Raise e ->
  e = IndexError \/ e = ValueError.
Proof.
  unfold loop_body. destruct (split line) as [|tag tokens];
    cbn [getitem nth_error bind].
  - intros E. injection E as <-. auto.
  - destruct (String.eqb tag "v").
    + destruct tokens as [|t1 [|t2 [|t3 more]]]; cbn;
        repeat match goal with
               | |- context [float_of ?t] => destruct (float_of t); cbn
               end;
        intros E; try discriminate; injection E as <-; auto.
    + destruct (String.eqb tag "f"); [|discriminate].
      destruct (comprehension (index int_of) (slice 1 4 (tag :: tokens)))
        eqn:C; cbn [bind]; [discriminate|].
      intros E. injection E as <-. right.
      eapply comprehension_index_raises. exact C.
Qed.

(** X21.  The first line that is not well formed decides: the reader stops there
    with the exception of that line, which is [IndexError] or [ValueError]
    and does not depend on what was read before; the lines after it are
    not looked at. *)
Theorem read_obj_first_error (before after : list string) (line : string) :
  Forall (well_formed float_of int_of) before ->
  ~ well_formed float_of int_of line ->
  exists e,
    (e = IndexError \/ e = ValueError)
    /\ (forall m, loop_body float_of int_of m line = Raise e)
    /\ read_obj float_of int_of (before ++ line :: after) = Raise e.
Proof.
  intros Hbefore Hline.
  destruct (loop_body float_of int_of {| vertices := []; indices := [] |}
              line) as [d|e] eqn:E.
  { destruct Hline.
    apply (loop_body_returns float_of int_of
             {| vertices := []; indices := [] |}). eauto. }
  assert (Hany : forall m, loop_body float_of int_of m line = Raise e).
  { intros m. rewrite loop_body_shift, E. reflexivity. }
  exists e. split; [exact (loop_body_exn _ _ E)|]. split; [exact Hany|].
  unfold read_obj. rewrite loop_app.
  destruct (proj1 (loop_returns float_of int_of before
                     {| vertices := []; indices := [] |}) Hbefore)
    as (m1 & ->).
  cbn [bind loop]. rewrite Hany. reflexivity.
Qed.

(** X22.  Every vertex read has three coordinates, and every face at most
    three indices. *)
Theorem read_obj_shape (file : list string) (m : mesh) :
  read_obj float_of int_of file = Ok m ->
  Forall (fun v => List.length v = 3) (vertices m)
  /\ Forall (fun face => List.length face <= 3) (indices m).
Proof.
  unfold read_obj.
  assert (G : forall m0 m1,
            loop float_of int_of m0 file = Ok m1 ->
            Forall (fun v => List.length v = 3) (vertices m0)
            /\ Forall (fun face => List.length face <= 3) (indices m0) ->
            Forall (fun v => List.length v = 3) (vertices m1)
            /\ Forall (fun face => List.length face <= 3) (indices m1)).
  { induction file as [|line rest IH]; intros m0 m1 R (Hv & Hf).
    - injection R as <-. auto.
    - cbn [loop] in R. apply bind_ok in R as (m2 & B & R).
      apply (IH _ _ R).
      apply loop_body_ok in B
        as [(_ & _ & Bi & _ & _ & _ & x & y & z & _ & _ & _ & _ & Bv)
           |[(_ & _ & Bv & face & Hface & Bi)|(_ & _ & ->)]].
      + rewrite Bi, Bv. split; [|exact Hf].
        apply Forall_app. split; [exact Hv|]. repeat constructor.
      + rewrite Bi, Bv. split; [exact Hv|].
        apply Forall_app. split; [exact Hf|]. constructor; [|constructor].
        apply comprehension_index, Forall2_length in Hface.
        rewrite <- Hface. unfold slice. apply firstn_le_length.
      + auto. }
  intros R. apply (G _ _ R). cbn. auto.
Qed.

(** X23.  Lines whose first token is neither [v] nor [f] (comments, normals,
    groups, materials) can be left out of a file that is read to its end:
    the mesh is the same. *)
Theorem read_obj_relevant (file : list string) (m : mesh) :
  read_obj float_of int_of file = Ok m ->
  read_obj float_of int_of (filter relevant file) = Ok m.
Proof.
  unfold read_obj. generalize ({| vertices := []; indices := [] |} : @mesh A).
  induction file as [|line rest IH]; intros m0 R; [exact R|].
  cbn [loop] in R. apply bind_ok in R as (m1 & B & R).
  cbn [filter]. unfold relevant at 1.
  pose proof B as B'.
  apply loop_body_ok in B'
    as [(-> & -> & _)|[(-> & -> & _)|(-> & -> & ->)]]; cbn [orb].
  - cbn [loop]. rewrite B. cbn [bind]. apply IH, R.
  - cbn [loop]. rewrite B. cbn [bind]. apply IH, R.
  - apply IH, R.
Qed.

(** X24.  Of a line, only the tag and the three tokens after it are read: a
    fourth coordinate of a vertex or a fourth index of a face changes
    nothing, not even an exception. *)
Theorem loop_body_reads_four (m : mesh) (line line' : string)
  (tag t1 t2 t3 : string) (more : list string) :
  split line = tag :: t1 :: t2 :: t3 :: more ->
  split line' = [tag; t1; t2; t3] ->
  loop_body float_of int_of m line = loop_body float_of int_of m line'.
Proof.
  intros E E'. unfold loop_body. rewrite E, E'. reflexivity.
Qed.

End ReaderMore.

Lemma read_obj_app_witness :
  read_obj float_dec int_dec
    (file_lines triangle_obj ++ file_lines face_only_obj)
  = Ok {| vertices := [[-0; 0; 0]; [-1; 0; 0]; [-0; 1; 0]]%float;
          indices := [[0; 1; 2]%Z; [0; 1; 2]%Z] |}.
Proof.
  rewrite (read_obj_app float_dec int_dec). vm_compute. reflexivity.
Defined.

Lemma read_obj_first_error_witness :
  read_obj float_dec int_dec (file_lines slashed_face_obj)
  = Raise ValueError.
Proof.
  destruct (@read_obj_first_error float _ float_dec int_dec
              [("v 0 0 0" ++ nl)%string] [("v 1 2" ++ nl)%string]
              ("f 1/1 1/1 1/1" ++ nl)%string)
    as (e & _ & Hline & R).
  - constructor; [vm_compute; reflexivity | constructor].
  - vm_compute. intros Hall. inversion Hall as [|? ? Hint _]. apply Hint.
    reflexivity.
  - change (file_lines slashed_face_obj)
      with ([("v 0 0 0" ++ nl)%string] ++ ("f 1/1 1/1 1/1" ++ nl)%string
            :: [("v 1 2" ++ nl)%string]).
    rewrite R. f_equal.
    specialize (Hline empty_mesh). vm_compute in Hline. congruence.
Defined.

Lemma read_obj_shape_witness :
  exists m : @mesh float,
    read_obj float_dec int_dec (file_lines commented_obj) = Ok m
    /\ Forall (fun v => List.length v = 3) (vertices m).
Proof.
  eexists. split; [vm_compute; reflexivity|].
  match goal with
  | |- Forall _ (vertices ?m) =>
      exact (proj1 (@read_obj_shape float _ float_dec int_dec
                      (file_lines commented_obj) m eq_refl))
  end.
Defined.

Lemma read_obj_relevant_witness :
  read_obj float_dec int_dec (filter relevant (file_lines commented_obj))
  = Ok {| vertices := [[-1; 2; 3]%float]; indices := [[0; 0; 0]%Z] |}.
Proof.
  apply (read_obj_relevant float_dec int_dec). vm_compute. reflexivity.
Defined.

Lemma loop_body_reads_four_witness :
  loop_body float_dec int_dec empty_mesh "f 1 2 3 4"
  = loop_body float_dec int_dec empty_mesh "f 1 2 3".
Proof.
  apply (@loop_body_reads_four float _ float_dec int_dec empty_mesh
           "f 1 2 3 4" "f 1 2 3" "f" "1" "2" "3" ["4"%string]);
    reflexivity.
Defined.


(** ** More on the compaction, lines 112 to 117 *)

(** X25.  The double pattern matches, at the head of a text, exactly the
    lists of two numerals written over several lines, and the triple pattern
    the lists of three; the groups are the numerals, and the match ends at the
    closing bracket. *)
Theorem patterns_match_vectors (s : text) (caps : captures) (rest : text) :
  (match_at double_pattern s = Some (caps, rest)
   <-> exists items close,
         List.length items = 2 /\ numerals items
         /\ s = spread items close ++ rest
         /\ caps = caps_of 1 items [])
  /\ (match_at triple_pattern s = Some (caps, rest)
      <-> exists items close,
            List.length items = 3 /\ numerals items
            /\ s = spread items close ++ rest
            /\ caps = caps_of 1 items []).
Proof.
  rewrite double_pattern_reads, triple_pattern_reads. split; split.
  - apply read_vector_sound.
  - intros (items & close & Hlen & Hnum & -> & ->).
    change 1 with (2 - 1) at 1. rewrite <- Hlen.
    apply read_vector_complete; [|exact Hnum].
    destruct items; [discriminate Hlen | discriminate].
  - apply read_vector_sound.
  - intros (items & close & Hlen & Hnum & -> & ->).
    change 2 with (3 - 1) at 1. rewrite <- Hlen.
    apply read_vector_complete; [|exact Hnum].
    destruct items; [discriminate Hlen | discriminate].
Qed.

Lemma collapsing_double : collapsing double_pattern double_repl.
Proof.
  intros s caps rest M. rewrite double_pattern_reads in M.
  apply read_vector_sound in M as (items & close & Hlen & Hnum & -> & ->).
  exists items, close. split; [exact Hnum|]. split; [reflexivity|].
  destruct items as [|[a1 n1] [|[a2 n2] [|item more]]]; try discriminate.
  apply expand_double.
Qed.

Lemma collapsing_triple : collapsing triple_pattern triple_repl.
Proof.
  intros s caps rest M. rewrite triple_pattern_reads in M.
  apply read_vector_sound in M as (items & close & Hlen & Hnum & -> & ->).
  exists items, close. split; [exact Hnum|]. split; [reflexivity|].
  destruct items as [|[a1 n1] [|[a2 n2] [|[a3 n3] [|item more]]]];
    try discriminate.
  apply expand_triple.
Qed.

Lemma strip_app (a b : text) : strip (a ++ b) = strip a ++ strip b.
Proof. apply filter_app. Qed.

Lemma strip_spaces (a : nat) : strip (spaces a) = [].
Proof. induction a as [|a IH]; [reflexivity | exact IH]. Qed.

Lemma strip_spread_items (items : list (nat * text)) :
  strip (spread_items items) = strip (inline_items (map snd items)).
Proof.
  induction items as [|[a n] items IH]; [reflexivity|].
  destruct items as [|item more].
  - cbn [spread_items map inline_items snd].
    rewrite strip_app, strip_spaces. reflexivity.
  - rewrite spread_items_cons.
    change (inline_items (map snd ((a, n) :: item :: more)))
      with (n ++ ","%char :: " "%char
              :: inline_items (map snd (item :: more))).
    rewrite !strip_app, strip_spaces. cbn [app]. f_equal.
    change (","%char :: strip (spread_items (item :: more))
            = ","%char :: strip (inline_items (map snd (item :: more)))).
    f_equal. exact IH.
Qed.

Lemma strip_spread (items : list (nat * text)) (close : nat) :
  strip (spread items close) = strip (inline (map snd items)).
Proof.
  unfold spread, inline.
  change ("["%char :: strip (spread_items items
                             ++ LF :: spaces close ++ ["]"%char])
          = "["%char :: strip (inline_items (map snd items) ++ ["]"%char])).
  f_equal. rewrite !strip_app, strip_spread_items. f_equal.
  change (strip (spaces close ++ ["]"%char]) = ["]"%char]).
  rewrite strip_app, strip_spaces. reflexivity.
Qed.

Lemma inline_items_length (items : list (nat * text)) :
  List.length (inline_items (map snd items))
  <= List.length (spread_items items).
Proof.
  induction items as [|[a n] items IH]; [apply le_n|].
  destruct items as [|item more].
  - cbn [spread_items map inline_items snd]. rewrite length_app. lia.
  - rewrite spread_items_cons.
    change (inline_items (map snd ((a, n) :: item :: more)))
      with (n ++ ","%char :: " "%char
              :: inline_items (map snd (item :: more))).
    rewrite !length_app. cbn [List.length]. lia.
Qed.

Lemma inline_shorter (items : list (nat * text)) (close : nat) :
  List.length (inline (map snd items)) < List.length (spread items close).
Proof.
  unfold spread, inline. cbn [List.length]. rewrite !length_app.
  cbn [List.length]. pose proof (inline_items_length items). lia.
Qed.

Section Whitespace.
Variable pattern : regex.
Variable repl : list piece.
Hypothesis Hbracketed : bracketed pattern repl.
Hypothesis Hcollapsing : collapsing pattern repl.

(** A substitution of a collapsing pattern changes spaces and line feeds
    only, and makes the text shorter wherever it changes it. *)
Lemma sub_whitespace : forall n s,
  List.length s <= n ->
  strip (sub pattern repl s) = strip s
  /\ List.length (sub pattern repl s) <= List.length s
  /\ (List.length (sub pattern repl s) = List.length s ->
      sub pattern repl s = s).
Proof.
  induction n as [|n IH]; intros s Hn.
  - destruct s; [|cbn in Hn; lia]. rewrite sub_nil. auto.
  - destruct s as [|c s']; [rewrite sub_nil; auto|].
    destruct (match_at pattern (c :: s')) as [[caps rest]|] eqn:M.
    + rewrite (@sub_replace _ _ Hbracketed _ _ _ M).
      destruct (Hcollapsing _ M) as (items & close & Hnum & Es & Ex).
      pose proof (inline_shorter items close) as Hshort.
      assert (Hlen : List.length rest <= n).
      { apply (f_equal (@List.length ascii)) in Es.
        rewrite length_app in Es. cbn [List.length] in Es, Hn. lia. }
      destruct (IH rest Hlen) as (I1 & I2 & _).
      rewrite Es, Ex. split; [|split].
      * rewrite !strip_app, I1, strip_spread. reflexivity.
      * rewrite !length_app. lia.
      * rewrite !length_app. intros E. lia.
    + rewrite (@sub_copy_one pattern repl c s' M).
      assert (Hlen : List.length s' <= n) by (cbn [List.length] in Hn; lia).
      destruct (IH s' Hlen) as (I1 & I2 & I3). split; [|split].
      * unfold strip in *. cbn [filter].
        destruct (negb (Ascii.eqb c " " || Ascii.eqb c LF));
          [f_equal|]; exact I1.
      * cbn [List.length]. lia.
      * cbn [List.length]. intros E. f_equal. apply I3. lia.
Qed.

End Whitespace.

(** X26.  The compaction changes spaces and line feeds only: without them, the
    text written is the text that [json.dumps] gave. *)
Theorem compact_strip (scene_string : text) :
  strip (compact scene_string) = strip scene_string.
Proof.
  unfold compact.
  rewrite (proj1 (@sub_whitespace _ _ bracketed_triple collapsing_triple
                    _ _ (le_n _))).
  exact (proj1 (@sub_whitespace _ _ bracketed_double collapsing_double
                  _ _ (le_n _))).
Qed.

(** X27.  The compaction never makes the text longer, and a text that keeps its
    length is unchanged. *)
Theorem compact_shrinks (scene_string : text) :
  List.length (compact scene_string) <= List.length scene_string
  /\ (List.length (compact scene_string) = List.length scene_string ->
      compact scene_string = scene_string).
Proof.
  unfold compact.
  destruct (@sub_whitespace _ _ bracketed_double collapsing_double
              _ scene_string (le_n _)) as (_ & D1 & D2).
  destruct (@sub_whitespace _ _ bracketed_triple collapsing_triple
              _ (sub double_pattern double_repl scene_string) (le_n _))
    as (_ & T1 & T2).
  split; [lia|]. intros E.
  rewrite T2 by lia. apply D2. lia.
Qed.

Lemma sub_bracket_head (pattern : regex) (repl : list piece) (y : text) :
  bracketed pattern repl ->
  exists z, sub pattern repl ("["%char :: y) = "["%char :: z.
Proof.
  intros Hb.
  destruct (match_at pattern ("["%char :: y)) as [[caps rest]|] eqn:M.
  - rewrite (@sub_replace _ _ Hb _ _ _ M).
    destruct (Hb _ _ _ M) as (w & e & c & _ & _ & _ & -> & _).
    eexists. reflexivity.
  - rewrite (@sub_copy_one pattern repl _ y M). eexists. reflexivity.
Qed.

(** X28.  The compaction works list by list: a text can be cut before any
    opening bracket and the two parts compacted apart. *)
Theorem compact_at_bracket (pre y : text) :
  compact (pre ++ "["%char :: y)
  = compact pre ++ compact ("["%char :: y).
Proof.
  unfold compact.
  rewrite (@sub_at_bracket _ _ bracketed_double y _ pre (le_n _)).
  destruct (@sub_bracket_head double_pattern double_repl y bracketed_double)
    as (z & ->).
  apply (@sub_at_bracket _ _ bracketed_triple z _ _ (le_n _)).
Qed.

(** X29.  A text without a line feed is left as it is. *)
Theorem compact_one_line (scene_string : text) :
  ~ In LF scene_string -> compact scene_string = scene_string.
Proof.
  intros Hlf.
  assert (Q : forall pattern repl,
            bracketed pattern repl -> quiet pattern scene_string).
  { intros pattern repl Hb pre u E.
    destruct (match_at pattern u) as [[caps rest]|] eqn:M; [|reflexivity].
    destruct (@match_head _ _ Hb _ _ _ M) as (x & ->).
    destruct Hlf. rewrite E. apply in_or_app. right. cbn. auto. }
  unfold compact.
  rewrite (@sub_quiet double_pattern double_repl scene_string
             (Q _ _ bracketed_double)).
  apply (@sub_quiet triple_pattern triple_repl scene_string
           (Q _ _ bracketed_triple)).
Qed.

Lemma compact_one_line_witness :
  compact (chars "{[1, 2]}") = chars "{[1, 2]}".
Proof.
  apply compact_one_line. cbn. intuition discriminate.
Defined.


Lemma read_elems_mismatch (items : list (nat * text)) :
  forall (k i : nat) (caps : captures) (x : text),
    numerals items -> List.length items <> S k ->
    read_elems k i (spread_items items ++ LF :: x) caps = None.
Proof.
  induction items as [|[a n] items IH]; intros k i caps x Hnum Hlen.
  - destruct k; reflexivity.
  - inversion Hnum as [|item l Hn Hrest]; subst. cbn [snd] in Hn.
    destruct items as [|item more].
    + destruct k as [|k]; [cbn in Hlen; lia|].
      cbn [spread_items read_elems].
      rewrite <- app_assoc, (drop_spaces_numeral a (LF :: x) Hn).
      rewrite (read_number_complete (LF :: x) Hn) by reflexivity.
      destruct x as [|c x]; reflexivity.
    + rewrite spread_items_cons.
      destruct k as [|k]; cbn [read_elems]; rewrite <- !app_assoc;
        rewrite (drop_spaces_numeral a _ Hn); cbn [app];
        rewrite (read_number_complete (","%char :: LF :: _) Hn)
          by reflexivity.
      * reflexivity.
      * cbn [Ascii.eqb Bool.eqb andb].
        change (Ascii.eqb LF LF) with true. cbv iota.
        apply IH; [exact Hrest|]. cbn [List.length] in *. lia.
Qed.

Lemma read_vector_mismatch (items : list (nat * text)) (close k : nat)
  (rest : text) :
  numerals items -> List.length items <> S k ->
  read_vector k (spread items close ++ rest) = None.
Proof.
  intros Hnum Hlen. unfold read_vector, spread. cbn [app].
  change (Ascii.eqb "[" "[" && Ascii.eqb LF LF)%bool with true. cbv iota.
  rewrite <- app_assoc. cbn [app].
  rewrite (@read_elems_mismatch items k 1 [] _ Hnum Hlen). reflexivity.
Qed.

(** X30.  A list of numerals over several lines that has neither two nor three
    elements stays as it is, and what stands before and after it is
    compacted as if the list were not there. *)
Theorem other_vector_kept (pre post : text) (items : list (nat * text))
  (close : nat) :
  numerals items ->
  List.length items <> 2 -> List.length items <> 3 ->
  compact (pre ++ spread items close ++ post)
  = compact pre ++ spread items close ++ compact post.
Proof.
  intros Hnum H2 H3. unfold compact.
  rewrite (@sub_passes_spread _ _ bracketed_double pre post items close
             Hnum).
  - apply (@sub_passes_spread _ _ bracketed_triple _ _ items close Hnum).
    rewrite triple_pattern_reads. apply read_vector_mismatch; assumption.
  - rewrite double_pattern_reads. apply read_vector_mismatch; assumption.
Qed.

Lemma other_vector_kept_witness :
  compact (chars "{" ++ spread [(8, chars "1"); (8, chars "2");
                                (8, chars "3"); (8, chars "4")] 4
           ++ chars "}")
  = chars "{" ++ spread [(8, chars "1"); (8, chars "2");
                         (8, chars "3"); (8, chars "4")] 4 ++ chars "}".
Proof.
  apply (@other_vector_kept (chars "{") (chars "}")
           [(8, chars "1"); (8, chars "2"); (8, chars "3"); (8, chars "4")]
           4).
  - repeat constructor; cbn [snd];
      apply (proj1 (fullmatch_numeral _)); reflexivity.
  - cbn. lia.
  - cbn. lia.
Defined.
